(** * dormdigest-backend: the data-access layer [db/db_operations.py]

    A shallow embedding of the permission check, the retry-write helper and
    the entity accessors of [src/db/db_operations.py], and the properties of
    them that the specification states.

    The SQLAlchemy session is modelled as a record holding the committed
    store, the in-transaction view the queries read, the store's verdicts on
    the coming commits, and a trace of the session calls made so far.
    Functions of the source become computations in a state-and-exception
    monad over that record. *)

From Stdlib Require Import ZArith List String Bool Lia.
From Stdlib Require Import Sorting.Permutation Sorting.Sorted.
From Stdlib Require Import Structures.OrderedTypeEx.
Import ListNotations.
Local Open Scope string_scope.
Local Open Scope list_scope.
Local Open Scope Z_scope.

(* ================================================================== *)
(** ** Rows of the tables *)

(** [datetime.date] and [datetime.time]. *)
Record date := mkDate { year : Z; month : Z; day : Z }.
Record time := mkTime { hour : Z; minute : Z; second : Z }.

(** Modelled from the spec: [db/schema.py] is not under src/.  The spec's data
    model gives a User an id, a unique email and a privilege level; the
    constructor call [User(email, user_privilege)] of [add_user] fills the
    last two, the store generates the id. *)
Record User := mkUser {
  User_id : Z;
  User_email : string;
  User_user_privilege : Z
}.

(** Modelled from the spec: a membership is a (user, club) pair with a
    privilege level; [ClubMembership(user_id, club_id, member_privilege)]. *)
Record ClubMembership := mkClubMembership {
  ClubMembership_user_id : Z;
  ClubMembership_club_id : Z;
  ClubMembership_member_privilege : Z
}.

(** Modelled from the spec: an Event row; the fields are the attributes that
    [add_event] and [update_event] assign.  [club_id] and the schedule fields
    are nullable. *)
Record Event := mkEvent {
  Event_id : Z;
  Event_title : string;
  Event_user_id : Z;
  Event_description : string;
  Event_club_id : option Z;
  Event_description_html : option string;
  Event_location : option string;
  Event_start_date : option date;
  Event_end_date : option date;
  Event_start_time : option time;
  Event_end_time : option time;
  Event_cta_link : option string
}.

(** Modelled from the spec: an (event_id, tag) pair; [EventTag(event_id, tag)]. *)
Record EventTag := mkEventTag {
  EventTag_event_id : Z;
  EventTag_tag : Z
}.

(** Modelled from the spec: the enums [schema.UserPrivilege] and
    [schema.MemberPrivilege] are not under src/.  The spec lists their members
    as NORMAL, ADMIN and MEMBER, OFFICER; the defaults [user_privilege=0] and
    [member_privilege=0] of [add_user] and [add_club_member] are the lowest
    level of each. *)
Module UserPrivilege.
Definition NORMAL : Z := 0.
Definition ADMIN : Z := 1.
End UserPrivilege.

Module MemberPrivilege.
Definition MEMBER : Z := 0.
Definition OFFICER : Z := 1.
End MemberPrivilege.

Definition MAX_COMMIT_RETRIES : Z := 10.

(** The tables the modelled functions read and write.  A table is the list of
    its rows in the order the store returns them, so that [first()] is the
    head of the filtered list. *)
Record DB := mkDB {
  users : list User;
  memberships : list ClubMembership;
  events : list Event;
  event_tags : list EventTag
}.

Definition empty_db : DB := mkDB [] [] [] [].

(** Objects handed to [session.add]: a row that has no primary key yet. *)
Inductive Model :=
| NewUser (email : string) (user_privilege : Z)
| NewClubMembership (user_id club_id member_privilege : Z)
| NewEventTag (event_id tag : Z).

(* ================================================================== *)
(** ** Exceptions, session, monad *)

Inductive Exn :=
| IntegrityError            (* sqlalchemy.exc.IntegrityError *)
| AssertionError
| ValueError
| OtherError (name : string) (* any other exception class *)
| LoopFuelExhausted.         (* the model's loop bound was reached; never raised,
                                see [add_to_db_loop_terminates] *)

Definition is_IntegrityError (e : Exn) : bool :=
  match e with IntegrityError => true | _ => false end.

(** An assignment [event.<attr> = value] made by the update functions. *)
Inductive Assignment :=
| Set_title (v : string)
| Set_description (v : string)
| Set_description_html (v : option string)
| Set_location (v : option string)
| Set_start_date (v : option date)
| Set_end_date (v : option date)
| Set_start_time (v : option time)
| Set_end_time (v : option time)
| Set_cta_link (v : option string).

(** The calls made on the session, oldest first. *)
Inductive Op :=
| OpQueryUserById (user_id : Z)
| OpQueryUserByEmail (email : string)
| OpQueryEventById (event_id : Z)
| OpQueryMembership (user_id club_id : Z)
| OpQueryOfficer (user_id : Z) (club_id : option Z)
| OpQueryEventsBetween (from_date to_date : date)
| OpDeleteEventTags (event_id : Z)
| OpAdd (obj : Model)
| OpAddAll (objs : list Model)
| OpSetAttr (event_id : Z) (a : Assignment)
| OpSetPrivilege (user_id club_id : Z)
| OpCommit
| OpRollback
| OpFlush
| OpRollbackFunc.

(** [store] is what has been committed, [working] the view inside the open
    transaction (what queries see, with autoflush).  [commit_script] lists the
    store's verdict on each coming [session.commit()], [None] for success;
    once it is used up every commit succeeds.  [setattr_script] does the same
    for attribute assignments on a persistent object (the mapped classes and
    their setters live in [db/schema.py]).  [identity] records the primary key the store gave to
    each object that was added. *)
Record Session := mkSession {
  store : DB;
  working : DB;
  commit_script : list (option Exn);
  setattr_script : list (option Exn);
  identity : list (Model * Z);
  trace : list Op
}.

Inductive Result (A : Type) :=
| Ok (a : A) (s : Session)
| Raise (e : Exn) (s : Session).
Arguments Ok {A} a s.
Arguments Raise {A} e s.

Definition M (A : Type) := Session -> Result A.

Definition ret {A} (a : A) : M A := fun s => Ok a s.
Definition raise {A} (e : Exn) : M A := fun s => Raise e s.
Definition bind {A B} (m : M A) (f : A -> M B) : M B :=
  fun s => match m s with
           | Ok a s' => f a s'
           | Raise e s' => Raise e s'
           end.

Notation "x <- m ;; k" := (bind m (fun x => k))
  (at level 61, m at next level, right associativity).
Notation "m ;;; k" := (bind m (fun _ => k))
  (at level 61, right associativity).

(** Python's [try: body / except <classes>: handler / else: orelse].  An
    exception of [body] that [catches] accepts runs [handler]; any other one
    propagates; exceptions of [handler] and of [orelse] propagate. *)
Definition try_except_else {A B} (body : M A) (catches : Exn -> bool)
    (handler : M B) (orelse : A -> M B) : M B :=
  fun s => match body s with
           | Ok a s' => orelse a s'
           | Raise e s' => if catches e then handler s' else Raise e s'
           end.

Definition final_session {A} (r : Result A) : Session :=
  match r with Ok _ s => s | Raise _ s => s end.

Definition returned {A} (r : Result A) : option A :=
  match r with Ok a _ => Some a | Raise _ _ => None end.

Definition log (op : Op) (s : Session) : Session :=
  mkSession (store s) (working s) (commit_script s) (setattr_script s)
            (identity s) (trace s ++ [op]).

Definition with_working (w : DB) (s : Session) : Session :=
  mkSession (store s) w (commit_script s) (setattr_script s)
            (identity s) (trace s).

(** A session at the start of a request: nothing pending. *)
Definition open_session (db : DB) (commits setattrs : list (option Exn)) : Session :=
  mkSession db db commits setattrs [] [].

Definition clean (s : Session) : Prop := working s = store s.

(* ================================================================== *)
(** ** Session primitives *)

(** Python truthiness of a nullable integer column: [None] and [0] are falsy. *)
Definition truthy_int (v : option Z) : bool :=
  match v with
  | None => false
  | Some n => negb (n =? 0)
  end.

(** SQL [column = value] for a non-null column and a nullable value: comparing
    with NULL selects no row. *)
Definition col_eq (col : Z) (v : option Z) : bool :=
  match v with
  | None => false
  | Some n => col =? n
  end.

Definition user_by_id (user_id : Z) (db : DB) : option User :=
  find (fun u => User_id u =? user_id) (users db).

Definition user_by_email (email : string) (db : DB) : option User :=
  find (fun u => String.eqb (User_email u) email) (users db).

Definition event_by_id (event_id : Z) (db : DB) : option Event :=
  find (fun e => Event_id e =? event_id) (events db).

Definition is_membership_of (club_id user_id : Z) (m : ClubMembership) : bool :=
  (ClubMembership_club_id m =? club_id) && (ClubMembership_user_id m =? user_id).

Definition is_officer_row (user_id : Z) (club_id : option Z) (m : ClubMembership) : bool :=
  (ClubMembership_user_id m =? user_id)
  && col_eq (ClubMembership_club_id m) club_id
  && (ClubMembership_member_privilege m =? MemberPrivilege.OFFICER).

(** [session.query(User).filter(User.id==user_id).first()] *)
Definition query_user_by_id (user_id : Z) : M (option User) :=
  fun s => Ok (user_by_id user_id (working s)) (log (OpQueryUserById user_id) s).

(** [session.query(User).filter(User.email==email).first()] *)
Definition query_user_by_email (email : string) : M (option User) :=
  fun s => Ok (user_by_email email (working s)) (log (OpQueryUserByEmail email) s).

(** [session.query(Event).filter(Event.id==event_id).first()] *)
Definition query_event_by_id (event_id : Z) : M (option Event) :=
  fun s => Ok (event_by_id event_id (working s)) (log (OpQueryEventById event_id) s).

(** [session.query(ClubMembership).filter(club_id==.., user_id==..).first()] *)
Definition query_membership (club_id user_id : Z) : M (option ClubMembership) :=
  fun s => Ok (find (is_membership_of club_id user_id) (memberships (working s)))
              (log (OpQueryMembership user_id club_id) s).

(** [session.query(ClubMembership).filter(user_id==.., club_id==event.club_id,
    member_privilege==OFFICER).first()] *)
Definition query_officer (user_id : Z) (club_id : option Z) : M (option ClubMembership) :=
  fun s => Ok (find (is_officer_row user_id club_id) (memberships (working s)))
              (log (OpQueryOfficer user_id club_id) s).

(** [session.commit()]: the store accepts the transaction or raises.  When it
    raises, SQLAlchemy also undoes the failed flush itself and wants a
    [rollback()] before the session is used again; the model leaves the open
    transaction to that rollback, so for a rejected commit only the committed
    store, the scripts and the trace are meant. *)
Definition session_commit : M unit :=
  fun s =>
    let s1 := log OpCommit s in
    match commit_script s with
    | Some e :: rest =>
        Raise e (mkSession (store s1) (working s1) rest (setattr_script s1)
                           (identity s1) (trace s1))
    | None :: rest =>
        Ok tt (mkSession (working s1) (working s1) rest (setattr_script s1)
                         (identity s1) (trace s1))
    | [] =>
        Ok tt (mkSession (working s1) (working s1) [] (setattr_script s1)
                         (identity s1) (trace s1))
    end.

(** [session.rollback()]: the open transaction is discarded. *)
Definition session_rollback : M unit :=
  fun s => Ok tt (log OpRollback (with_working (store s) s)).

(** [session.flush()] after a commit has nothing left to write. *)
Definition session_flush : M unit :=
  fun s => Ok tt (log OpFlush s).

(** The next value of an auto-increment primary key. *)
Definition next_id (ids : list Z) : Z := 1 + fold_right Z.max 0 ids.

(** The row an object becomes, and the generated key when it has one. *)
Definition insert_row (obj : Model) (db : DB) : DB * option Z :=
  match obj with
  | NewUser email user_privilege =>
      let pk := next_id (map User_id (users db)) in
      (mkDB (users db ++ [mkUser pk email user_privilege])
            (memberships db) (events db) (event_tags db), Some pk)
  | NewClubMembership user_id club_id member_privilege =>
      (mkDB (users db)
            (memberships db ++ [mkClubMembership user_id club_id member_privilege])
            (events db) (event_tags db), None)
  | NewEventTag event_id tag =>
      (mkDB (users db) (memberships db) (events db)
            (event_tags db ++ [mkEventTag event_id tag]), None)
  end.

Definition remember (obj : Model) (pk : option Z) (idm : list (Model * Z))
    : list (Model * Z) :=
  match pk with
  | Some k => (obj, k) :: idm
  | None => idm
  end.

(** An object enters the open transaction: its row is inserted and the key
    the store generated is remembered for it. *)
Definition add_object (obj : Model) (s : Session) : Session :=
  let '(w, pk) := insert_row obj (working s) in
  mkSession (store s) w (commit_script s) (setattr_script s)
            (remember obj pk (identity s)) (trace s).

(** [session.add(obj)] *)
Definition session_add (obj : Model) : M unit :=
  fun s => Ok tt (log (OpAdd obj) (add_object obj s)).

(** [for o in others: session.add(o)] *)
Fixpoint session_add_each (objs : list Model) : M unit :=
  match objs with
  | [] => ret tt
  | o :: rest => session_add o ;;; session_add_each rest
  end.

(** [session.add_all(objs)] *)
Definition session_add_all (objs : list Model) : M unit :=
  fun s => Ok tt (log (OpAddAll objs)
                      (fold_left (fun s o => add_object o s) objs s)).

(** [session.query(EventTag).filter(EventTag.event_id==event_id).delete()] *)
Definition delete_event_tags (event_id : Z) : M unit :=
  fun s =>
    let w := working s in
    let kept := filter (fun t => negb (EventTag_event_id t =? event_id)) (event_tags w) in
    Ok tt (log (OpDeleteEventTags event_id)
               (with_working (mkDB (users w) (memberships w) (events w) kept) s)).

Fixpoint update_first {A} (p : A -> bool) (f : A -> A) (l : list A) : list A :=
  match l with
  | [] => []
  | x :: rest => if p x then f x :: rest else x :: update_first p f rest
  end.

Definition apply_assignment (a : Assignment) (e : Event) : Event :=
  match e with
  | mkEvent id title user_id description club_id description_html location
            start_date end_date start_time end_time cta_link =>
    match a with
    | Set_title v =>
        mkEvent id v user_id description club_id description_html location
                start_date end_date start_time end_time cta_link
    | Set_description v =>
        mkEvent id title user_id v club_id description_html location
                start_date end_date start_time end_time cta_link
    | Set_description_html v =>
        mkEvent id title user_id description club_id v location
                start_date end_date start_time end_time cta_link
    | Set_location v =>
        mkEvent id title user_id description club_id description_html v
                start_date end_date start_time end_time cta_link
    | Set_start_date v =>
        mkEvent id title user_id description club_id description_html location
                v end_date start_time end_time cta_link
    | Set_end_date v =>
        mkEvent id title user_id description club_id description_html location
                start_date v start_time end_time cta_link
    | Set_start_time v =>
        mkEvent id title user_id description club_id description_html location
                start_date end_date v end_time cta_link
    | Set_end_time v =>
        mkEvent id title user_id description club_id description_html location
                start_date end_date start_time v cta_link
    | Set_cta_link v =>
        mkEvent id title user_id description club_id description_html location
                start_date end_date start_time end_time v
    end
  end.

(** What an attribute assignment does once the setter has accepted it. *)
Definition assign_in (event_id : Z) (a : Assignment) (w : DB) : DB :=
  mkDB (users w) (memberships w)
       (update_first (fun e => Event_id e =? event_id) (apply_assignment a) (events w))
       (event_tags w).

Arguments assign_in : simpl never.

(** [event.<attr> = value] on the Event object that [first()] returned. *)
Definition setattr (event : Event) (a : Assignment) : M unit :=
  fun s =>
    let s1 := log (OpSetAttr (Event_id event) a) s in
    match setattr_script s with
    | Some e :: rest =>
        Raise e (mkSession (store s1) (working s1) (commit_script s1) rest
                           (identity s1) (trace s1))
    | _ =>
        Ok tt (mkSession (store s1) (assign_in (Event_id event) a (working s1))
                         (commit_script s1) (tl (setattr_script s1))
                         (identity s1) (trace s1))
    end.

Definition set_privilege (v : Z) (m : ClubMembership) : ClubMembership :=
  mkClubMembership (ClubMembership_user_id m) (ClubMembership_club_id m) v.

(** [curr_membership.member_privilege = value] on the object that [first()]
    returned for (club_id, user_id). *)
Definition setattr_member_privilege (curr : ClubMembership) (v : Z) : M unit :=
  fun s =>
    let club_id := ClubMembership_club_id curr in
    let user_id := ClubMembership_user_id curr in
    let s1 := log (OpSetPrivilege user_id club_id) s in
    match setattr_script s with
    | Some e :: rest =>
        Raise e (mkSession (store s1) (working s1) (commit_script s1) rest
                           (identity s1) (trace s1))
    | _ =>
        let w := working s1 in
        Ok tt (mkSession (store s1)
                 (mkDB (users w)
                       (update_first (is_membership_of club_id user_id)
                                     (set_privilege v) (memberships w))
                       (events w) (event_tags w))
                 (commit_script s1) (tl (setattr_script s1))
                 (identity s1) (trace s1))
    end.

(** [obj.id] of an object that was added: the key the store generated. *)
Definition Model_eqb (a b : Model) : bool :=
  match a, b with
  | NewUser e1 p1, NewUser e2 p2 => String.eqb e1 e2 && (p1 =? p2)
  | NewClubMembership u1 c1 p1, NewClubMembership u2 c2 p2 =>
      (u1 =? u2) && (c1 =? c2) && (p1 =? p2)
  | NewEventTag e1 t1, NewEventTag e2 t2 => (e1 =? e2) && (t1 =? t2)
  | _, _ => false
  end.

Definition object_id (obj : Model) : M (option Z) :=
  fun s => Ok (option_map snd (find (fun p => Model_eqb (fst p) obj) (identity s))) s.

(** [rollbackfunc()]: the caller's conflict-resolution callback, modelled as
    a transformation of the open transaction.  What it does has no bearing on
    the store's verdicts, which are inputs of the model. *)
Definition call_rollbackfunc (f : DB -> DB) : M unit :=
  fun s => Ok tt (log OpRollbackFunc (with_working (f (working s)) s)).

(* ================================================================== *)
(** ** Calendar and ordering *)

(** [calendar.isleap] *)
Definition isleap (y : Z) : bool :=
  (y mod 4 =? 0) && (negb (y mod 100 =? 0) || (y mod 400 =? 0)).

(** [calendar.mdays] *)
Definition mdays (m : Z) : Z :=
  match m with
  | 1 => 31 | 2 => 28 | 3 => 31 | 4 => 30 | 5 => 31 | 6 => 30
  | 7 => 31 | 8 => 31 | 9 => 30 | 10 => 31 | 11 => 30 | 12 => 31
  | _ => 0
  end.

(** The second component of [calendar.monthrange(year, month)]: the number of
    days of the month. *)
Definition monthrange_ndays (y m : Z) : Z :=
  mdays m + (if (m =? 2) && isleap y then 1 else 0).

Definition MINYEAR : Z := 1.
Definition MAXYEAR : Z := 9999.

(** The range of a C int, in which [datetime] takes its arguments. *)
Definition INT_MIN : Z := - 2 ^ 31.
Definition INT_MAX : Z := 2 ^ 31 - 1.

Definition fits_c_int (n : Z) : bool := (INT_MIN <=? n) && (n <=? INT_MAX).

(** [datetime(year, month, day).date()]: raises OverflowError for an argument
    that does not fit a C int, and ValueError for one outside the calendar. *)
Definition make_date (y m d : Z) : M date :=
  if negb (fits_c_int y && fits_c_int m && fits_c_int d)
  then raise (OtherError "OverflowError")
  else if (MINYEAR <=? y) && (y <=? MAXYEAR) && (1 <=? m) && (m <=? 12)
          && (1 <=? d) && (d <=? monthrange_ndays y m)
  then ret (mkDate y m d)
  else raise ValueError.

Definition lex (c1 c2 : comparison) : comparison :=
  match c1 with
  | Eq => c2
  | _ => c1
  end.

Definition date_compare (a b : date) : comparison :=
  lex (year a ?= year b) (lex (month a ?= month b) (day a ?= day b)).

Definition time_compare (a b : time) : comparison :=
  lex (hour a ?= hour b) (lex (minute a ?= minute b) (second a ?= second b)).

(** Ascending order on a nullable column, NULL before every value. *)
Definition option_compare {A} (cmp : A -> A -> comparison) (a b : option A)
    : comparison :=
  match a, b with
  | None, None => Eq
  | None, Some _ => Lt
  | Some _, None => Gt
  | Some x, Some y => cmp x y
  end.

Definition date_leb (a b : date) : bool :=
  match date_compare a b with Gt => false | _ => true end.

(** [Event.start_date.between(from_date, to_date)]; NULL is not between
    anything. *)
Definition start_date_between (from_date to_date : date) (e : Event) : bool :=
  match Event_start_date e with
  | None => false
  | Some d => date_leb from_date d && date_leb d to_date
  end.

(** [order_by(Event.start_date, Event.start_time, Event.title)] *)
Definition event_compare (a b : Event) : comparison :=
  lex (option_compare date_compare (Event_start_date a) (Event_start_date b))
      (lex (option_compare time_compare (Event_start_time a) (Event_start_time b))
           (String.compare (Event_title a) (Event_title b))).

Definition event_leb (a b : Event) : bool :=
  match event_compare a b with Gt => false | _ => true end.

Fixpoint insert_event (e : Event) (l : list Event) : list Event :=
  match l with
  | [] => [e]
  | x :: rest => if event_leb e x then e :: l else x :: insert_event e rest
  end.

Definition order_events (l : list Event) : list Event :=
  fold_right insert_event [] l.

(** [session.query(Event).filter(Event.start_date.between(from_date, to_date))
      .order_by(Event.start_date, Event.start_time, Event.title).all()] *)
Definition query_events_between (from_date to_date : date) : M (list Event) :=
  fun s =>
    Ok (order_events (filter (start_date_between from_date to_date)
                             (events (working s))))
       (log (OpQueryEventsBetween from_date to_date) s).

(* ================================================================== *)
(** ** The functions of [db_operations.py] *)

(** [has_edit_permission(session, user_id, event_id)] *)
Definition has_edit_permission (user_id event_id : Z) : M bool :=
  user <- query_user_by_id user_id ;;
  match user with
  | None => ret false
  | Some user =>
      let user_privilege := User_user_privilege user in
      if user_privilege =? UserPrivilege.ADMIN then ret true
      else
        event <- query_event_by_id event_id ;;
        match event with
        | None => ret false
        | Some event =>
            if Event_user_id event =? user_id then ret true
            else if negb (truthy_int (Event_club_id event)) then ret false
            else
              officer <- query_officer user_id (Event_club_id event) ;;
              ret (match officer with Some _ => true | None => false end)
        end
  end.

(** [get_events_by_month(session, month, year=None)]; [now_year] is
    [datetime.now().year]. *)
Definition get_events_by_month (now_year : Z) (month : Z) (year : option Z)
    : M (list Event) :=
  if negb ((1 <=? month) && (month <=? 12)) then raise AssertionError
  else
    let year := if negb (truthy_int year) then now_year
                else match year with Some y => y | None => now_year end in
    let last_day_of_month := monthrange_ndays year month in
    from_date <- make_date year month 1 ;;
    to_date <- make_date year month last_day_of_month ;;
    query_events_between from_date to_date.

(** One pass of the body of the [while] loop of [add_to_db]; the result is the
    new value of [(committed, retry)]. *)
Definition add_to_db_attempt (obj : Model) (others : option (list Model))
    (rollbackfunc : option (DB -> DB)) (retry : Z) : M (bool * Z) :=
  try_except_else
    (session_add obj ;;;
     (match others with
      | Some (o :: rest) => session_add_each (o :: rest)
      | _ => ret tt
      end) ;;;
     session_commit)
    is_IntegrityError
    (session_rollback ;;;
     retry <- (match rollbackfunc with
               | Some f => call_rollbackfunc f ;;; ret retry
               | None => ret 0
               end) ;;
     ret (false, retry - 1))
    (fun _ => ret (true, retry)).

(** The [while (not committed and retry > 0)] loop.  [fuel] bounds the number
    of passes; [None] means the bound was reached before the loop ended. *)
Fixpoint add_to_db_loop (fuel : nat) (obj : Model) (others : option (list Model))
    (rollbackfunc : option (DB -> DB)) (committed : bool) (retry : Z)
    (s : Session) : option (Result bool) :=
  if negb committed && (retry >? 0) then
    match fuel with
    | O => None
    | S fuel' =>
        match add_to_db_attempt obj others rollbackfunc retry s with
        | Ok st s' =>
            add_to_db_loop fuel' obj others rollbackfunc (fst st) (snd st) s'
        | Raise e s' => Some (Raise e s')
        end
    end
  else Some (Ok committed s).

(** [add_to_db(session, obj, others=None, rollbackfunc=None)].  The loop is
    given [MAX_COMMIT_RETRIES] passes, which is always enough
    ([add_to_db_loop_terminates]). *)
Definition add_to_db (obj : Model) (others : option (list Model))
    (rollbackfunc : option (DB -> DB)) : M bool :=
  fun s =>
    let retry := MAX_COMMIT_RETRIES in
    let committed := false in
    match add_to_db_loop (Z.to_nat MAX_COMMIT_RETRIES) obj others rollbackfunc
                         committed retry s with
    | Some r => r
    | None => Raise LoopFuelExhausted s
    end.

(** [add_event_tags(session, event_id, event_tags)] *)
Definition add_event_tags (event_id : Z) (tags : list Z) : M unit :=
  delete_event_tags event_id ;;;
  let new_tags := map (NewEventTag event_id) tags in
  session_add_all new_tags ;;;
  session_commit.

(** [add_user(session, email, user_privilege=0)] *)
Definition add_user (email : string) (user_privilege : Z) : M (option Z) :=
  curr_user <- query_user_by_email email ;;
  match curr_user with
  | Some curr_user => ret (Some (User_id curr_user))
  | None =>
      let new_user := NewUser email user_privilege in
      committed <- add_to_db new_user None None ;;
      if committed then
        session_flush ;;;
        object_id new_user
      else ret None
  end.

(** [add_club_member(session, club_id, user_id, member_privilege=0)] *)
Definition add_club_member (club_id user_id member_privilege : Z) : M unit :=
  curr_membership <- query_membership club_id user_id ;;
  match curr_membership with
  | Some curr_membership =>
      if member_privilege >? ClubMembership_member_privilege curr_membership then
        setattr_member_privilege curr_membership member_privilege ;;;
        session_commit
      else ret tt
  | None =>
      let new_membership := NewClubMembership user_id club_id member_privilege in
      add_to_db new_membership None None ;;;
      ret tt
  end.

(** [update_event_description(session, event_id, description, description_html)] *)
Definition update_event_description (event_id : Z) (description : string)
    (description_html : option string) : M bool :=
  event <- query_event_by_id event_id ;;
  match event with
  | None => ret false
  | Some event =>
      error <- try_except_else
        (setattr event (Set_description description) ;;;
         setattr event (Set_description_html description_html))
        (fun _ => true)
        (session_rollback ;;; ret true)
        (fun _ => session_commit ;;; ret false) ;;
      ret (negb error)
  end.

(** [update_event(session, event_id, title, description, event_tags=None,
      start_date=None, end_date=None, start_time=None, end_time=None,
      description_html=None, club_id=None, location=None, cta_link=None)];
    an omitted keyword argument is [None]. *)
Definition update_event (event_id : Z) (title description : string)
    (tags : option (list Z))
    (start_date end_date : option date) (start_time end_time : option time)
    (description_html : option string) (club_id : option Z)
    (location cta_link : option string) : M bool :=
  event <- query_event_by_id event_id ;;
  match event with
  | None => ret false
  | Some event =>
      error <- try_except_else
        (setattr event (Set_title title) ;;;
         setattr event (Set_description description) ;;;
         setattr event (Set_description_html description_html) ;;;
         setattr event (Set_location location) ;;;
         setattr event (Set_start_date start_date) ;;;
         setattr event (Set_end_date end_date) ;;;
         setattr event (Set_start_time start_time) ;;;
         setattr event (Set_end_time end_time) ;;;
         setattr event (Set_cta_link cta_link))
        (fun _ => true)
        (session_rollback ;;; ret true)
        (fun _ => session_commit ;;; ret false) ;;
      (match tags with
       | Some (t :: rest) => add_event_tags event_id (t :: rest)
       | _ => ret tt
       end) ;;;
      ret (negb error)
  end.

(* ================================================================== *)
(** ** Small examples *)

Definition alice : User := mkUser 1 "alice@mit.edu" UserPrivilege.NORMAL.
Definition root_user : User := mkUser 2 "root@mit.edu" UserPrivilege.ADMIN.
Definition bob : User := mkUser 3 "bob@mit.edu" UserPrivilege.NORMAL.

Definition party : Event :=
  mkEvent 10 "Party" 1 "Snacks" (Some 7) None None
          (Some (mkDate 2024 2 29)) None None None None.

Definition sample_db : DB :=
  mkDB [alice; root_user; bob]
       [mkClubMembership 3 7 MemberPrivilege.OFFICER]
       [party]
       [mkEventTag 10 1; mkEventTag 10 2; mkEventTag 11 5].

Definition sample_session : Session := open_session sample_db [] [].

(* ================================================================== *)
(** ** Specification-side predicates *)

(** The event has an associated club: its [club_id] is neither NULL nor 0,
    the two values for which [not event.club_id] holds. *)
Definition has_club (e : Event) : Prop :=
  exists c, Event_club_id e = Some c /\ c <> 0.

(** A membership row for (user_id, event.club_id) with privilege OFFICER. *)
Definition officer_row_exists (db : DB) (user_id : Z) (e : Event) : Prop :=
  exists m, In m (memberships db)
            /\ ClubMembership_user_id m = user_id
            /\ Event_club_id e = Some (ClubMembership_club_id m)
            /\ ClubMembership_member_privilege m = MemberPrivilege.OFFICER.

(** The three grounds on which a user may edit an event. *)
Definition may_edit (db : DB) (user_id event_id : Z) : Prop :=
  exists u, user_by_id user_id db = Some u
    /\ (User_user_privilege u = UserPrivilege.ADMIN
        \/ (exists e, event_by_id event_id db = Some e /\ Event_user_id e = user_id)
        \/ (exists e, event_by_id event_id db = Some e
                      /\ has_club e /\ officer_row_exists db user_id e)).

Definition is_admin (db : DB) (user_id : Z) : Prop :=
  exists u, user_by_id user_id db = Some u
            /\ User_user_privilege u = UserPrivilege.ADMIN.

(** The objects one pass of [add_to_db] hands to [session.add]. *)
Definition added (obj : Model) (others : option (list Model)) : list Model :=
  obj :: match others with Some l => l | None => [] end.

(** The session calls of one insert attempt, and of an attempt that ended in
    an integrity conflict. *)
Definition attempt_ops (obj : Model) (others : option (list Model)) : list Op :=
  map OpAdd (added obj others) ++ [OpCommit].

Definition conflict_ops (obj : Model) (others : option (list Model))
    (rollbackfunc : option (DB -> DB)) : list Op :=
  attempt_ops obj others ++ [OpRollback]
  ++ match rollbackfunc with Some _ => [OpRollbackFunc] | None => [] end.

Definition is_commit (op : Op) : bool :=
  match op with OpCommit => true | _ => false end.

Definition count_commits (ops : list Op) : nat := List.length (filter is_commit ops).

(** How many of the coming commits, counted from the next one, the store
    answers with an integrity conflict. *)
Fixpoint leading_conflicts (script : list (option Exn)) : nat :=
  match script with
  | Some IntegrityError :: rest => S (leading_conflicts rest)
  | _ => O
  end.

(** The number of attempts [add_to_db] is prepared to make. *)
Definition budget (rollbackfunc : option (DB -> DB)) : nat :=
  match rollbackfunc with
  | Some _ => Z.to_nat MAX_COMMIT_RETRIES
  | None => 1%nat
  end.

(** The session after [session.add] of each object in turn. *)
Definition added_session (objs : list Model) (s : Session) : Session :=
  fold_left (fun s o => final_session (session_add o s)) objs s.
Arguments added_session : simpl never.
Arguments added : simpl never.

(** The session calls of a run of [add_to_db] whose first [k] attempts end in
    a conflict, out of [n] attempts allowed. *)
Definition ops_made (obj : Model) (others : option (list Model))
    (rollbackfunc : option (DB -> DB)) (k n : nat) : list Op :=
  List.concat (repeat (conflict_ops obj others rollbackfunc) k)
  ++ (if (k <? n)%nat then attempt_ops obj others else []).

(** What a run of the loop amounts to when the store answers the first [k]
    commits with a conflict and [n] attempts are allowed: [k] conflict rounds,
    then, if the allowance is not used up, one more attempt whose verdict
    decides between returning true and propagating the store's error. *)
Definition loop_outcome (obj : Model) (others : option (list Model))
    (rollbackfunc : option (DB -> DB)) (s : Session) (k n : nat)
    (r : Result bool) : Prop :=
  let s' := final_session r in
  trace s' = trace s ++ ops_made obj others rollbackfunc k n
  /\ commit_script s'
     = skipn (k + (if (k <? n)%nat then 1 else 0)) (commit_script s)
  /\ setattr_script s' = setattr_script s
  /\ (if (k <? n)%nat then
        match nth_error (commit_script s) k with
        | Some (Some e) => r = Raise e s' /\ is_IntegrityError e = false
        | _ => r = Ok true s'
        end
      else r = Ok false s').

(** The tag values linked to an event, in table order. *)
Definition tags_of (event_id : Z) (db : DB) : list Z :=
  map EventTag_tag
      (filter (fun t => EventTag_event_id t =? event_id) (event_tags db)).

(** The tag rows of all other events. *)
Definition other_tag_rows (event_id : Z) (db : DB) : list EventTag :=
  filter (fun t => negb (EventTag_event_id t =? event_id)) (event_tags db).

(** The number of User rows with a given email. *)
Definition count_email (email : string) (db : DB) : nat :=
  List.length (filter (fun u => String.eqb (User_email u) email) (users db)).

(** The privilege of the membership row that [first()] finds for a
    (club, user) pair, and the number of rows for the pair. *)
Definition membership_privilege (club_id user_id : Z) (db : DB) : option Z :=
  option_map ClubMembership_member_privilege
             (find (is_membership_of club_id user_id) (memberships db)).


(** The store accepts every write that is still to come. *)
Definition no_faults (s : Session) : Prop :=
  Forall (fun v => v = None) (commit_script s)
  /\ Forall (fun v => v = None) (setattr_script s).

(** The memberships table after a call of [add_club_member] that the store
    does not disturb. *)
Definition memberships_after (club_id user_id member_privilege : Z)
    (l : list ClubMembership) : list ClubMembership :=
  match find (is_membership_of club_id user_id) l with
  | Some curr =>
      if member_privilege >? ClubMembership_member_privilege curr
      then update_first (is_membership_of club_id user_id)
                        (set_privilege member_privilege) l
      else l
  | None => l ++ [mkClubMembership user_id club_id member_privilege]
  end.

(** Calendar order on dates. *)
Definition date_le (a b : date) : Prop :=
  year a < year b
  \/ (year a = year b
      /\ (month a < month b \/ (month a = month b /\ day a <= day b))).

(** The Gregorian leap-year rule. *)
Definition is_leap_year (y : Z) : Prop :=
  (4 | y) /\ (~ (100 | y) \/ (400 | y)).

(** The sort key of [order_by(start_date, start_time, title)]. *)
Definition event_key (e : Event) : option date * (option time * string) :=
  (Event_start_date e, (Event_start_time e, Event_title e)).

Definition pair_compare {A B} (cA : A -> A -> comparison)
    (cB : B -> B -> comparison) (x y : A * B) : comparison :=
  lex (cA (fst x) (fst y)) (cB (snd x) (snd y)).

Definition key_compare : option date * (option time * string) ->
                         option date * (option time * string) -> comparison :=
  pair_compare (option_compare date_compare)
               (pair_compare (option_compare time_compare) String.compare).

(** [a] comes no later than [b] in the query's order. *)
Definition event_le (a b : Event) : Prop := event_leb a b = true.

(** A three-way comparison that decides a strict total order. *)
Class TotalCompare {A : Type} (cmp : A -> A -> comparison) : Prop := {
  cmp_eq_iff : forall x y, cmp x y = Eq <-> x = y;
  cmp_antisym : forall x y, cmp y x = CompOpp (cmp x y);
  cmp_lt_trans : forall x y z, cmp x y = Lt -> cmp y z = Lt -> cmp x z = Lt
}.

(** The fields of an Event that say whose it is. *)
Definition owner_fields (e : Event) : Z * Z * option Z :=
  (Event_id e, Event_user_id e, Event_club_id e).

Definition owners (db : DB) : list (Z * Z * option Z) :=
  map owner_fields (events db).

(** A property of the session that a computation keeps, whether it returns or
    raises. *)
Definition maintains (P : Session -> Prop) {A} (m : M A) : Prop :=
  forall s, P s -> P (final_session (m s)).

(** Both views of the store show the owner fields [o]. *)
Definition owners_are (o : list (Z * Z * option Z)) (s : Session) : Prop :=
  owners (working s) = o /\ owners (store s) = o.

(** A run of assignments on one Event object. *)
Fixpoint assign_all (event : Event) (l : list Assignment) : M unit :=
  match l with
  | [] => ret tt
  | [a] => setattr event a
  | a :: rest => setattr event a ;;; assign_all event rest
  end.

(** The assignments of [update_event], in source order. *)
Definition update_event_assignments (title description : string)
    (start_date end_date : option date) (start_time end_time : option time)
    (description_html location cta_link : option string) : list Assignment :=
  [Set_title title; Set_description description;
   Set_description_html description_html; Set_location location;
   Set_start_date start_date; Set_end_date end_date;
   Set_start_time start_time; Set_end_time end_time; Set_cta_link cta_link].

(** A session on [sample_db] whose store rejects the next commit with an
    error that is not an integrity conflict (a value too long for its column,
    a lost connection). *)
Definition failing_commit_session : Session :=
  open_session sample_db [Some (OtherError "DataError")] [].

(** A session on [sample_db] whose store answers the next two commits with
    an integrity conflict and the third with a lost connection. *)
Definition flaky_session : Session :=
  open_session sample_db
    [Some IntegrityError; Some IntegrityError;
     Some (OtherError "OperationalError"); None] [].

(* ================================================================== *)
(** ** The remaining accessors of [db_operations.py] *)

(** [session.close()]: the connection is released and whatever transaction is
    still open is discarded.  The trace has no entry for it. *)
Definition session_close : M unit :=
  fun s => Ok tt (with_working (store s) s).

(** [session_scope()], with [body] the block run under [with]:
    [try: yield session; session.commit() / except: session.rollback(); raise
     / finally: session.close()]. *)
Definition session_scope {A} (body : M A) : M A :=
  fun s =>
    match (a <- body ;; session_commit ;;; ret a) s with
    | Ok a s1 => (session_close ;;; ret a) s1
    | Raise e s1 => (session_rollback ;;; session_close ;;; raise e) s1
    end.

(** [get_events_by_date(session, from_date, include_description=False)].
    [undefer_group("full_description")] only changes when the description
    columns are loaded, not which rows or values the query yields. *)
Definition get_events_by_date (from_date : date) (include_description : bool)
    : M (list Event) :=
  let query := query_events_between from_date from_date in
  let query := if include_description then query else query in
  query.

(** [res = []; for x in xs: res.append(f(x)); return res] *)
Definition collect {A B} (f : A -> B) (xs : list A) : list B :=
  fold_left (fun res x => res ++ [f x]) xs [].


(** Modelled from the spec: for an Event object loaded from the store,
    [event.user] is the User row the event's [user_id] refers to, or None. *)
Definition Event_user (event : Event) (db : DB) : option User :=
  user_by_id (Event_user_id event) db.


(** [get_event_user_emails(session, events)] *)
Definition get_event_user_emails (events : list Event) : M (list string) :=
  fun s =>
    Ok (collect (fun event =>
                   match Event_user event (working s) with
                   | Some user => User_email user
                   | None => "unknown_user"
                   end) events) s.

(* ================================================================== *)
(** ** [db_helpers.py] *)

(** A Python dict with string keys, as the list of its items.  Looking a key
    up takes its first item and removing a key drops every item of it, so the
    operations agree with a dict whether or not a key is listed twice. *)
Definition dict (V : Type) : Type := list (string * V).

Definition is_key {V} (k : string) (item : string * V) : bool :=
  String.eqb (fst item) k.

(** [d.get(k)] *)
Definition dict_get {V} (k : string) (d : dict V) : option V :=
  option_map snd (find (is_key k) d).

(** [k in d] *)
Definition dict_has {V} (k : string) (d : dict V) : bool :=
  existsb (is_key k) d.

(** [d.pop(k)], for its effect on [d]: KeyError when the key is missing. *)
Definition dict_pop {V} (k : string) (d : dict V) : Exn + dict V :=
  if dict_has k d
  then inr (filter (fun item => negb (is_key k item)) d)
  else inl (OtherError "KeyError").

(** The loop of [list_dict_convert] for [remove_sql_ref=True]; an entry is
    given by its [__dict__]. *)
Fixpoint convert_entries {V} (query_res_lst converted_lst : list (dict V))
    : Exn + list (dict V) :=
  match query_res_lst with
  | [] => inr converted_lst
  | entry :: rest =>
      let entry_dict := entry in
      match dict_pop "_sa_instance_state" entry_dict with
      | inl e => inl e
      | inr entry_dict => convert_entries rest (converted_lst ++ [entry_dict])
      end
  end.

(** [list_dict_convert(query_res_lst, remove_sql_ref=True)] *)
Definition list_dict_convert {V} (query_res_lst : list (dict V))
    (remove_sql_ref : bool) : Exn + list (dict V) :=
  if remove_sql_ref then convert_entries query_res_lst []
  else inr (map (fun r => r) query_res_lst).

(** [check_object_params(target_dict, req_params)] *)
Definition check_object_params {V} (target_dict : dict V)
    (req_params : list string) : bool :=
  fold_left (fun res param =>
               if negb (dict_has param target_dict) then false else res)
            req_params true.

(** A converted entry: the ORM's bookkeeping key is gone, every other key has
    the value it had. *)
Definition converted_from {V} (entry r : dict V) : Prop :=
  dict_get "_sa_instance_state" r = None
  /\ forall k, k <> "_sa_instance_state" -> dict_get k r = dict_get k entry.

(** Order by start_time, then title: the query's order among events of one
    day. *)
Definition time_title_le (a b : Event) : Prop :=
  pair_compare (option_compare time_compare) String.compare
    (Event_start_time a, Event_title a) (Event_start_time b, Event_title b)
  <> Gt.

(** The rows that [obj] and [others] become, inserted into [w]. *)
Definition inserted (obj : Model) (others : option (list Model)) (w : DB) : DB :=
  fold_left (fun db o => fst (insert_row o db)) (added obj others) w.

(** A table of the store, seen in both views of a session. *)
Definition view_is {X} (proj : DB -> X) (x : X) (s : Session) : Prop :=
  proj (working s) = x /\ proj (store s) = x.

(** Some rows for the sample data. *)
Definition orm_row : dict Z :=
  [("id", 7); ("_sa_instance_state", 0); ("user_id", 1)].

(** The row of an added object is in the tables. *)
Definition row_present (o : Model) (db : DB) : Prop :=
  match o with
  | NewUser email user_privilege =>
      exists id, In (mkUser id email user_privilege) (users db)
  | NewClubMembership user_id club_id member_privilege =>
      In (mkClubMembership user_id club_id member_privilege) (memberships db)
  | NewEventTag event_id tag => In (mkEventTag event_id tag) (event_tags db)
  end.

(** A store with an event of alice (user 1) and an event whose submitter,
    user 99, is not in the users table. *)
Definition hike : Event :=
  mkEvent 12 "Hike" 99 "Boots" None None None None None None None None.

Definition batch_session : Session :=
  open_session (mkDB [alice; root_user; bob] [] [party; hike] []) [] [].

(* ================================================================== *)
(** ** Permission check *)

Lemma find_officer_some (db : DB) (user_id : Z) (e : Event) :
  (exists m, find (is_officer_row user_id (Event_club_id e)) (memberships db) = Some m)
  <-> officer_row_exists db user_id e.
Proof.
  unfold officer_row_exists. split.
  - intros [m Hm]. apply find_some in Hm. destruct Hm as [Hin Hp].
    exists m. unfold is_officer_row, col_eq in Hp.
    destruct (Event_club_id e) as [c|]; [|rewrite andb_false_r in Hp; discriminate].
    apply andb_true_iff in Hp. destruct Hp as [Hp Hpriv].
    apply andb_true_iff in Hp. destruct Hp as [Hu Hc].
    apply Z.eqb_eq in Hu, Hc, Hpriv. subst. auto.
  - intros [m (Hin & Hu & Hc & Hp)].
    destruct (find (is_officer_row user_id (Event_club_id e)) (memberships db))
      as [m'|] eqn:Hf; [eauto|].
    exfalso. eapply find_none in Hf; [|exact Hin].
    unfold is_officer_row, col_eq in Hf. rewrite Hc, Hu, Hp in Hf.
    rewrite !Z.eqb_refl in Hf. discriminate.
Qed.

Lemma truthy_int_has_club (e : Event) :
  truthy_int (Event_club_id e) = true <-> has_club e.
Proof.
  unfold truthy_int, has_club. destruct (Event_club_id e) as [c|].
  - rewrite negb_true_iff, Z.eqb_neq. split.
    + intros H. exists c. auto.
    + intros [c' [Hc Hne]]. congruence.
  - split; [discriminate|]. intros [c [Hc _]]. discriminate.
Qed.

(** The value [has_edit_permission] returns, as a function of the tables. *)
Lemma has_edit_permission_returns (s : Session) (user_id event_id : Z) :
  exists b s',
    has_edit_permission user_id event_id s = Ok b s'
    /\ store s' = store s /\ working s' = working s
    /\ (b = true <-> may_edit (working s) user_id event_id)
    /\ (is_admin (working s) user_id ->
        trace s' = trace s ++ [OpQueryUserById user_id]).
Proof.
  unfold has_edit_permission, bind, query_user_by_id, may_edit, is_admin.
  destruct (user_by_id user_id (working s)) as [u|] eqn:Hu.
  2:{ exists false, (log (OpQueryUserById user_id) s). cbn.
      split; [reflexivity|]. split; [reflexivity|]. split; [reflexivity|].
      split; [split; [discriminate|]|].
      - intros [u [Hx _]]. discriminate.
      - intros [u [Hx _]]. discriminate. }
  destruct (User_user_privilege u =? UserPrivilege.ADMIN) eqn:Hadm.
  { apply Z.eqb_eq in Hadm.
    exists true, (log (OpQueryUserById user_id) s). cbn.
    split; [reflexivity|]. split; [reflexivity|]. split; [reflexivity|].
    split; [split; eauto|reflexivity]. }
  apply Z.eqb_neq in Hadm.
  assert (Hnadm : forall u', Some u = Some u' ->
            User_user_privilege u' = UserPrivilege.ADMIN -> False)
    by (intros u' Hx Hy; congruence).
  unfold query_event_by_id. cbn [log working].
  destruct (event_by_id event_id (working s)) as [e|] eqn:He.
  2:{ eexists false, _. cbn.
      split; [reflexivity|]. split; [reflexivity|]. split; [reflexivity|].
      split; [split; [discriminate|]|].
      - intros [u' [Hx [Hy|[[e [Hz _]]|[e [Hz _]]]]]]; try discriminate.
        exfalso; eauto.
      - intros [u' [Hx Hy]]. exfalso; eauto. }
  destruct (Event_user_id e =? user_id) eqn:Hown.
  { apply Z.eqb_eq in Hown. eexists true, _. cbn.
    split; [reflexivity|]. split; [reflexivity|]. split; [reflexivity|].
    split; [split; [|reflexivity]|].
    - intros _. exists u. split; [reflexivity|]. right. left. eauto.
    - intros [u' [Hx Hy]]. exfalso; eauto. }
  apply Z.eqb_neq in Hown.
  destruct (truthy_int (Event_club_id e)) eqn:Hclub; cbn [negb].
  2:{ eexists false, _. cbn.
      split; [reflexivity|]. split; [reflexivity|]. split; [reflexivity|].
      split; [split; [discriminate|]|].
      - intros [u' [Hx [Hy|[[e' [Hz Hw]]|[e' [Hz [Hw _]]]]]]].
        + exfalso; eauto.
        + congruence.
        + assert (e' = e) by congruence. subst e'.
          apply truthy_int_has_club in Hw. congruence.
      - intros [u' [Hx Hy]]. exfalso; eauto. }
  unfold query_officer. cbn [log working].
  destruct (find (is_officer_row user_id (Event_club_id e)) (memberships (working s)))
    as [m|] eqn:Hoff.
  - eexists true, _. cbn.
    split; [reflexivity|]. split; [reflexivity|]. split; [reflexivity|].
    split; [split; [|reflexivity]|].
    + intros _. exists u. split; [reflexivity|]. right. right.
      exists e. split; [reflexivity|]. split.
      * now apply truthy_int_has_club.
      * apply find_officer_some. eauto.
    + intros [u' [Hx Hy]]. exfalso; eauto.
  - eexists false, _. cbn.
    split; [reflexivity|]. split; [reflexivity|]. split; [reflexivity|].
    split; [split; [discriminate|]|].
    + intros [u' [Hx [Hy|[[e' [Hz Hw]]|[e' [Hz [_ Hw]]]]]]].
      * exfalso; eauto.
      * congruence.
      * assert (e' = e) by congruence. subst e'.
        apply find_officer_some in Hw. destruct Hw as [m Hm]. congruence.
    + intros [u' [Hx Hy]]. exfalso; eauto.
Qed.

(** Club ids are generated by the store and start at 1.  When no membership
    row carries club id 0, an officer row for the event's club already implies
    that the event has a club. *)
Lemma officer_row_implies_has_club (db : DB) (user_id : Z) (e : Event) :
  Forall (fun m => ClubMembership_club_id m <> 0) (memberships db) ->
  officer_row_exists db user_id e -> has_club e.
Proof.
  intros Hpos [m (Hin & _ & Hc & _)].
  rewrite Forall_forall in Hpos.
  exists (ClubMembership_club_id m). split; [exact Hc|]. now apply Hpos.
Qed.

(** C1, counterexample: the clause "an absent event yields false" fails for a
    server admin.  User 2 of [sample_db] is an ADMIN and no event has id 99,
    yet the check returns true (and never looks the event up). *)
Lemma has_edit_permission_admin_absent_event :
  event_by_id 99 (working sample_session) = None
  /\ returned (has_edit_permission 2 99 sample_session) = Some true
  /\ ~ (forall s user_id event_id,
          event_by_id event_id (working s) = None ->
          returned (has_edit_permission user_id event_id s) = Some false).
Proof.
  split; [reflexivity|]. split; [reflexivity|].
  intros H. specialize (H sample_session 2 99 eq_refl).
  vm_compute in H. discriminate.
Qed.

(** C1 (amended): for every session state, user_id and event_id,
    [has_edit_permission] returns a boolean, and it is true if and only if the
    user with that id exists and either (a) is an ADMIN, or (b) the event
    exists and is owned by user_id, or (c) the event exists, has an associated
    club, and some membership row for (user_id, event.club_id) has privilege
    OFFICER.  An absent user yields false; an absent event yields false for
    every user that is not an ADMIN; for an ADMIN the result is true and the
    only query made is the user lookup, so the admin check comes before any
    event lookup.  The check changes neither the store nor the open
    transaction. *)
Theorem has_edit_permission_spec :
  forall (s : Session) (user_id event_id : Z),
  exists b s',
    has_edit_permission user_id event_id s = Ok b s'
    /\ (b = true <-> may_edit (working s) user_id event_id)
    /\ (user_by_id user_id (working s) = None -> b = false)
    /\ (event_by_id event_id (working s) = None ->
        ~ is_admin (working s) user_id -> b = false)
    /\ (is_admin (working s) user_id ->
        b = true /\ trace s' = trace s ++ [OpQueryUserById user_id])
    /\ store s' = store s /\ working s' = working s.
Proof.
  intros s user_id event_id.
  destruct (has_edit_permission_returns s user_id event_id)
    as (b & s' & Hrun & Hst & Hw & Hiff & Htr).
  exists b, s'. split; [exact Hrun|]. split; [exact Hiff|].
  split; [|split; [|split; [|split; assumption]]].
  - intros Hnone. destruct b; [|reflexivity].
    destruct (proj1 Hiff eq_refl) as [u [Hu _]]. congruence.
  - intros Hnone Hnadm. destruct b; [|reflexivity].
    destruct (proj1 Hiff eq_refl) as [u [Hu [Ha|[[e [He _]]|[e [He _]]]]]].
    + exfalso. apply Hnadm. exists u. auto.
    + congruence.
    + congruence.
  - intros Hadm. split; [|now apply Htr].
    apply Hiff. destruct Hadm as [u [Hu Ha]]. exists u. auto.
Qed.

(* ================================================================== *)
(** ** The retry-write helper *)

Lemma session_add_ok (o : Model) (s : Session) :
  session_add o s = Ok tt (final_session (session_add o s)).
Proof. reflexivity. Qed.

Lemma session_add_frame (o : Model) (s : Session) :
  let s' := final_session (session_add o s) in
  store s' = store s /\ commit_script s' = commit_script s
  /\ setattr_script s' = setattr_script s /\ trace s' = trace s ++ [OpAdd o]
  /\ working s' = fst (insert_row o (working s)).
Proof.
  unfold session_add, add_object. destruct (insert_row o (working s)). cbn. auto.
Qed.

Lemma added_session_cons (o : Model) (objs : list Model) (s : Session) :
  added_session (o :: objs) s = added_session objs (final_session (session_add o s)).
Proof. reflexivity. Qed.

Lemma session_add_each_ok (objs : list Model) (s : Session) :
  session_add_each objs s = Ok tt (added_session objs s).
Proof.
  revert s. induction objs as [|o objs IH]; intros s; [reflexivity|].
  cbn [session_add_each]. unfold bind.
  rewrite session_add_ok, added_session_cons. apply IH.
Qed.

Lemma added_session_frame (objs : list Model) (s : Session) :
  let s' := added_session objs s in
  store s' = store s /\ commit_script s' = commit_script s
  /\ setattr_script s' = setattr_script s
  /\ trace s' = trace s ++ map OpAdd objs
  /\ working s' = fold_left (fun db o => fst (insert_row o db)) objs (working s).
Proof.
  revert s. induction objs as [|o objs IH]; intros s.
  - cbn. unfold added_session. cbn. rewrite app_nil_r. auto.
  - cbn zeta. rewrite added_session_cons.
    destruct (IH (final_session (session_add o s))) as (H1 & H2 & H3 & H4 & H5).
    destruct (session_add_frame o s) as (G1 & G2 & G3 & G4 & G5).
    rewrite H1, H2, H3, H4, H5, G1, G2, G3, G4, G5.
    cbn [map fold_left]. rewrite <- app_assoc. auto.
Qed.

(** The part of an attempt before the commit. *)
Lemma attempt_adds (obj : Model) (others : option (list Model)) (s : Session)
    {B} (k : M B) :
  (session_add obj ;;;
   (match others with
    | Some (o :: rest) => session_add_each (o :: rest)
    | _ => ret tt
    end) ;;; k) s
  = k (added_session (added obj others) s).
Proof.
  unfold bind at 1. rewrite session_add_ok.
  unfold added. rewrite added_session_cons.
  destruct others as [[|o rest]|]; unfold bind.
  - reflexivity.
  - rewrite session_add_each_ok. reflexivity.
  - reflexivity.
Qed.

Lemma attempt_conflict (obj : Model) (others : option (list Model))
    (rollbackfunc : option (DB -> DB)) (retry : Z) (s : Session)
    (rest : list (option Exn)) :
  commit_script s = Some IntegrityError :: rest ->
  exists s',
    add_to_db_attempt obj others rollbackfunc retry s
    = Ok (false, (match rollbackfunc with Some _ => retry | None => 0 end) - 1) s'
    /\ store s' = store s
    /\ working s' = match rollbackfunc with
                    | Some f => f (store s)
                    | None => store s
                    end
    /\ commit_script s' = rest
    /\ setattr_script s' = setattr_script s
    /\ trace s' = trace s ++ conflict_ops obj others rollbackfunc.
Proof.
  intros Hscript.
  destruct (added_session_frame (added obj others) s) as (H1 & H2 & H3 & H4 & H5).
  unfold add_to_db_attempt, try_except_else. rewrite attempt_adds.
  unfold session_commit. rewrite H2, Hscript. cbn [is_IntegrityError].
  unfold conflict_ops, attempt_ops.
  destruct rollbackfunc as [f|]; cbn; eexists; (split; [reflexivity|]); cbn.
  all: rewrite H1, H3, H4, <- ?app_assoc; cbn; auto.
Qed.

Lemma attempt_error (obj : Model) (others : option (list Model))
    (rollbackfunc : option (DB -> DB)) (retry : Z) (s : Session)
    (e : Exn) (rest : list (option Exn)) :
  commit_script s = Some e :: rest ->
  is_IntegrityError e = false ->
  exists s',
    add_to_db_attempt obj others rollbackfunc retry s = Raise e s'
    /\ store s' = store s
    /\ commit_script s' = rest
    /\ setattr_script s' = setattr_script s
    /\ trace s' = trace s ++ attempt_ops obj others.
Proof.
  intros Hscript He.
  destruct (added_session_frame (added obj others) s) as (H1 & H2 & H3 & H4 & H5).
  unfold add_to_db_attempt, try_except_else. rewrite attempt_adds.
  unfold session_commit. rewrite H2, Hscript, He.
  unfold attempt_ops. eexists. split; [reflexivity|]. cbn.
  rewrite H1, H3, H4, <- ?app_assoc. auto.
Qed.

Lemma attempt_success (obj : Model) (others : option (list Model))
    (rollbackfunc : option (DB -> DB)) (retry : Z) (s : Session) :
  hd None (commit_script s) = None ->
  exists s',
    add_to_db_attempt obj others rollbackfunc retry s = Ok (true, retry) s'
    /\ working s' = fold_left (fun db o => fst (insert_row o db))
                              (added obj others) (working s)
    /\ store s' = working s'
    /\ identity s' = identity (added_session (added obj others) s)
    /\ commit_script s' = tl (commit_script s)
    /\ setattr_script s' = setattr_script s
    /\ trace s' = trace s ++ attempt_ops obj others.
Proof.
  intros Hscript.
  destruct (added_session_frame (added obj others) s) as (H1 & H2 & H3 & H4 & H5).
  unfold add_to_db_attempt, try_except_else. rewrite attempt_adds.
  unfold session_commit. rewrite H2. unfold attempt_ops.
  destruct (commit_script s) as [|[e|] rest]; cbn in Hscript; try discriminate;
    eexists; (split; [reflexivity|]); cbn;
    rewrite H3, H4, H5, <- ?app_assoc; auto 10.
Qed.

Lemma leading_conflicts_zero (script : list (option Exn)) :
  leading_conflicts script = 0%nat ->
  hd None script = None
  \/ exists e rest, script = Some e :: rest /\ is_IntegrityError e = false.
Proof.
  destruct script as [|[e|] rest]; cbn; auto.
  destruct e; try discriminate; intros _; right; eauto.
Qed.

Lemma leading_conflicts_succ (script : list (option Exn)) (l : nat) :
  leading_conflicts script = S l ->
  exists rest, script = Some IntegrityError :: rest /\ leading_conflicts rest = l.
Proof.
  destruct script as [|[e|] rest]; cbn; try discriminate.
  destruct e; try discriminate. intros H. injection H as H. eauto.
Qed.

(** A pass that does not end in a conflict ends the loop. *)
Lemma loop_last_attempt (obj : Model) (others : option (list Model))
    (rollbackfunc : option (DB -> DB)) (fuel : nat) (retry : Z) (s : Session) :
  0 < retry ->
  leading_conflicts (commit_script s) = 0%nat ->
  forall n, (0 < n)%nat ->
  exists r,
    add_to_db_loop (S fuel) obj others rollbackfunc false retry s = Some r
    /\ loop_outcome obj others rollbackfunc s 0 n r.
Proof.
  intros Hretry Hlead n Hn.
  assert (Hlt : (0 <? n)%nat = true) by now apply Nat.ltb_lt.
  cbn [add_to_db_loop negb andb].
  replace (retry >? 0) with true by (symmetry; apply Z.gtb_lt; lia).
  unfold loop_outcome, ops_made. rewrite Hlt. cbn [repeat List.concat app Nat.add].
  destruct (leading_conflicts_zero _ Hlead) as [Hok|(e & rest & Hs & He)].
  - destruct (attempt_success obj others rollbackfunc retry s Hok)
      as (s1 & Hrun & _ & _ & _ & Hc & Hsa & Htr).
    rewrite Hrun. cbn [fst snd].
    exists (Ok true s1). split.
    + destruct fuel; reflexivity.
    + cbn [final_session]. rewrite Htr, Hc, Hsa.
      repeat split.
      destruct (commit_script s) as [|[e|] rest]; cbn in *;
        try discriminate; reflexivity.
  - destruct (attempt_error obj others rollbackfunc retry s e rest Hs He)
      as (s1 & Hrun & _ & Hc & Hsa & Htr).
    rewrite Hrun. exists (Raise e s1). split; [reflexivity|].
    cbn [final_session]. rewrite Htr, Hc, Hsa, Hs. cbn. auto.
Qed.

Lemma loop_outcome_after_conflict (obj : Model) (others : option (list Model))
    (rollbackfunc : option (DB -> DB)) (s s1 : Session)
    (rest : list (option Exn)) (k n : nat) (r : Result bool) :
  commit_script s = Some IntegrityError :: rest ->
  commit_script s1 = rest ->
  setattr_script s1 = setattr_script s ->
  trace s1 = trace s ++ conflict_ops obj others rollbackfunc ->
  loop_outcome obj others rollbackfunc s1 k n r ->
  loop_outcome obj others rollbackfunc s (S k) (S n) r.
Proof.
  intros Hs Hc Hsa Htr (Ht & Hscr & Hset & Hres).
  unfold loop_outcome, ops_made in *.
  change (S k <? S n)%nat with (k <? n)%nat.
  rewrite Ht, Htr, Hscr, Hc, Hset, Hsa, Hs.
  cbn [repeat List.concat Nat.add skipn nth_error].
  rewrite <- !app_assoc. rewrite Hc in Hres. auto.
Qed.

(** The loop with a callback: every conflict costs one retry. *)
Lemma add_to_db_loop_callback (obj : Model) (others : option (list Model))
    (f : DB -> DB) :
  forall (fuel : nat) (retry : Z) (s : Session),
    0 <= retry -> (Z.to_nat retry <= fuel)%nat ->
    exists r,
      add_to_db_loop fuel obj others (Some f) false retry s = Some r
      /\ loop_outcome obj others (Some f) s
           (Nat.min (leading_conflicts (commit_script s)) (Z.to_nat retry))
           (Z.to_nat retry) r.
Proof.
  induction fuel as [|fuel IH]; intros retry s Hretry Hfuel.
  - assert (retry = 0) by lia. subst retry. cbn.
    exists (Ok false s). split; [reflexivity|].
    rewrite Nat.min_0_r. unfold loop_outcome, ops_made. cbn.
    rewrite app_nil_r. auto.
  - destruct (Z.eq_dec retry 0) as [->|Hnz].
    { exists (Ok false s). split; [reflexivity|].
      cbn [Z.to_nat]. rewrite Nat.min_0_r. unfold loop_outcome, ops_made. cbn.
      rewrite app_nil_r. auto. }
    assert (Hpos : 0 < retry) by lia.
    destruct (Z.to_nat retry) as [|n] eqn:Hn; [lia|].
    destruct (leading_conflicts (commit_script s)) as [|l] eqn:Hlead.
    + cbn [Nat.min]. apply loop_last_attempt; auto. lia.
    + destruct (leading_conflicts_succ _ _ Hlead) as (rest & Hs & Hl).
      destruct (attempt_conflict obj others (Some f) retry s rest Hs)
        as (s1 & Hrun & _ & _ & Hc & Hsa & Htr).
      destruct (IH (retry - 1) s1) as (r & Hloop & Hout); [lia|lia|].
      exists r. split.
      * cbn [add_to_db_loop negb andb].
        replace (retry >? 0) with true by (symmetry; apply Z.gtb_lt; lia).
        rewrite Hrun. exact Hloop.
      * cbn [Nat.min].
        replace (Z.to_nat (retry - 1)) with n in Hout by lia.
        rewrite Hc, Hl in Hout.
        eapply loop_outcome_after_conflict; eauto.
Qed.

(** The loop without a callback: the first conflict ends it. *)
Lemma add_to_db_loop_no_callback (obj : Model) (others : option (list Model))
    (fuel : nat) (retry : Z) (s : Session) :
  0 < retry ->
  exists r,
    add_to_db_loop (S fuel) obj others None false retry s = Some r
    /\ loop_outcome obj others None s
         (Nat.min (leading_conflicts (commit_script s)) 1) 1 r.
Proof.
  intros Hpos.
  destruct (leading_conflicts (commit_script s)) as [|l] eqn:Hlead.
  - cbn [Nat.min]. apply loop_last_attempt; auto.
  - destruct (leading_conflicts_succ _ _ Hlead) as (rest & Hs & Hl).
    destruct (attempt_conflict obj others None retry s rest Hs)
      as (s1 & Hrun & _ & _ & Hc & Hsa & Htr).
    exists (Ok false s1). split.
    + cbn [add_to_db_loop negb andb].
      replace (retry >? 0) with true by (symmetry; apply Z.gtb_lt; lia).
      rewrite Hrun. cbn [fst snd]. destruct fuel; reflexivity.
    + cbn [Nat.min]. rewrite Nat.min_0_r.
      apply (loop_outcome_after_conflict obj others None s s1 rest 0 0); auto.
      unfold loop_outcome, ops_made. cbn. rewrite app_nil_r. auto.
Qed.


(** [add_to_db] never runs out of passes, and its run is the one
    [loop_outcome] describes. *)
Lemma add_to_db_outcome (obj : Model) (others : option (list Model))
    (rollbackfunc : option (DB -> DB)) (s : Session) :
  exists r,
    add_to_db_loop (Z.to_nat MAX_COMMIT_RETRIES) obj others rollbackfunc
                   false MAX_COMMIT_RETRIES s = Some r
    /\ add_to_db obj others rollbackfunc s = r
    /\ loop_outcome obj others rollbackfunc s
         (Nat.min (leading_conflicts (commit_script s)) (budget rollbackfunc))
         (budget rollbackfunc) r.
Proof.
  unfold add_to_db.
  destruct rollbackfunc as [f|].
  - destruct (add_to_db_loop_callback obj others f
                (Z.to_nat MAX_COMMIT_RETRIES) MAX_COMMIT_RETRIES s)
      as (r & Hloop & Hout); [unfold MAX_COMMIT_RETRIES; lia|lia|].
    exists r. rewrite Hloop. auto.
  - destruct (add_to_db_loop_no_callback obj others 9 MAX_COMMIT_RETRIES s)
      as (r & Hloop & Hout); [unfold MAX_COMMIT_RETRIES; lia|].
    exists r. change (Z.to_nat MAX_COMMIT_RETRIES) with 10%nat.
    rewrite Hloop. auto.
Qed.

Lemma add_to_db_loop_more_fuel (obj : Model) (others : option (list Model))
    (rollbackfunc : option (DB -> DB)) :
  forall (fuel : nat) (committed : bool) (retry : Z) (s : Session) (r : Result bool),
    add_to_db_loop fuel obj others rollbackfunc committed retry s = Some r ->
    forall fuel', (fuel <= fuel')%nat ->
    add_to_db_loop fuel' obj others rollbackfunc committed retry s = Some r.
Proof.
  induction fuel as [|fuel IH]; intros committed retry s r Hrun fuel' Hle.
  - cbn in Hrun. destruct (negb committed && (retry >? 0)) eqn:Hc; [discriminate|].
    destruct fuel'; cbn; rewrite Hc; exact Hrun.
  - destruct fuel' as [|fuel']; [lia|].
    cbn in Hrun |- *. destruct (negb committed && (retry >? 0)); [|exact Hrun].
    destruct (add_to_db_attempt obj others rollbackfunc retry s) as [st s1|e s1];
      [|exact Hrun].
    apply IH with (fuel' := fuel') in Hrun; [exact Hrun|lia].
Qed.

(** Termination of the retry loop: [MAX_COMMIT_RETRIES] passes, or any larger
    number, let the loop run to its end, with the result of [add_to_db]. *)
Lemma add_to_db_loop_terminates (obj : Model) (others : option (list Model))
    (rollbackfunc : option (DB -> DB)) (s : Session) (fuel : nat) :
  (Z.to_nat MAX_COMMIT_RETRIES <= fuel)%nat ->
  add_to_db_loop fuel obj others rollbackfunc false MAX_COMMIT_RETRIES s
  = Some (add_to_db obj others rollbackfunc s).
Proof.
  intros Hfuel.
  destruct (add_to_db_outcome obj others rollbackfunc s) as (r & Hloop & Hr & _).
  rewrite Hr. eapply add_to_db_loop_more_fuel; eauto.
Qed.






Lemma add_to_db_no_callback_conflict (obj : Model) (others : option (list Model))
    (s : Session) (rest : list (option Exn)) :
  commit_script s = Some IntegrityError :: rest ->
  exists s',
    add_to_db obj others None s = Ok false s'
    /\ store s' = store s /\ working s' = store s
    /\ commit_script s' = rest
    /\ trace s' = trace s ++ attempt_ops obj others ++ [OpRollback].
Proof.
  intros Hs.
  destruct (attempt_conflict obj others None MAX_COMMIT_RETRIES s rest Hs)
    as (s1 & Hrun & Hst & Hw & Hc & _ & Htr).
  exists s1. unfold add_to_db.
  change (Z.to_nat MAX_COMMIT_RETRIES) with 10%nat.
  cbn [add_to_db_loop negb andb]. change (MAX_COMMIT_RETRIES >? 0) with true.
  cbv iota. rewrite Hrun. cbn [fst snd].
  split; [reflexivity|].
  unfold conflict_ops in Htr. rewrite app_nil_r in Htr. auto.
Qed.

Lemma leading_conflicts_repeat (k : nat) (tail : list (option Exn)) :
  leading_conflicts (repeat (Some IntegrityError) k ++ tail)
  = (k + leading_conflicts tail)%nat.
Proof. induction k as [|k IH]; cbn; [reflexivity|now rewrite IH]. Qed.

Lemma nth_error_after_repeat {A} (x y : A) (k : nat) (tail : list A) :
  nth_error (repeat x k ++ y :: tail) k = Some y.
Proof. induction k as [|k IH]; cbn; auto. Qed.

Lemma skipn_after_repeat {A} (x y : A) (k : nat) (tail : list A) :
  skipn (k + 1) (repeat x k ++ y :: tail) = tail.
Proof. induction k as [|k IH]; cbn; auto. Qed.


(** C8: when the store answers a commit of [add_to_db] with an error that is
    not an integrity conflict, that error leaves [add_to_db] as an exception:
    no boolean is returned, the last session call is the failed commit (no
    rollback, no callback, no further attempt), and the store's later verdicts
    are left unused.  This holds for the first attempt and for any later
    attempt that earlier conflicts led to. *)
Theorem add_to_db_other_error_propagates :
  forall (obj : Model) (others : option (list Model))
         (rollbackfunc : option (DB -> DB)) (s : Session)
         (k : nat) (e : Exn) (rest : list (option Exn)),
    commit_script s = repeat (Some IntegrityError) k ++ Some e :: rest ->
    is_IntegrityError e = false ->
    (k < budget rollbackfunc)%nat ->
    exists s',
      add_to_db obj others rollbackfunc s = Raise e s'
      /\ returned (add_to_db obj others rollbackfunc s) = None
      /\ trace s' = trace s
           ++ List.concat (repeat (conflict_ops obj others rollbackfunc) k)
           ++ attempt_ops obj others
      /\ commit_script s' = rest.
Proof.
  intros obj others rollbackfunc s k e rest Hs He Hk.
  destruct (add_to_db_outcome obj others rollbackfunc s)
    as (r & _ & Hr & Htr & Hscr & _ & Hres).
  assert (Hlead : leading_conflicts (commit_script s) = k).
  { rewrite Hs, leading_conflicts_repeat.
    destruct e; cbn in *; try discriminate; lia. }
  rewrite Hlead in *.
  replace (Nat.min k (budget rollbackfunc)) with k in * by lia.
  apply Nat.ltb_lt in Hk. unfold ops_made in Htr. rewrite Hk in *.
  rewrite Hs, nth_error_after_repeat in Hres. destruct Hres as [Hres _].
  rewrite Hs, skipn_after_repeat in Hscr.
  exists (final_session r). rewrite Hr.
  split; [exact Hres|]. split; [rewrite Hres; reflexivity|]. auto.
Qed.

(** C8, an instance: two conflicts answered by a callback, then a lost
    connection. *)
Lemma add_to_db_other_error_propagates_witness :
  commit_script flaky_session
  = repeat (Some IntegrityError) 2 ++ [Some (OtherError "OperationalError"); None]
  /\ is_IntegrityError (OtherError "OperationalError") = false
  /\ (2 < budget (Some (fun db : DB => db)))%nat
  /\ exists s',
       add_to_db (NewUser "carol@mit.edu" 0) None (Some (fun db => db)) flaky_session
       = Raise (OtherError "OperationalError") s'
       /\ returned (add_to_db (NewUser "carol@mit.edu" 0) None
                              (Some (fun db => db)) flaky_session) = None
       /\ trace s'
          = trace flaky_session
            ++ List.concat (repeat (conflict_ops (NewUser "carol@mit.edu" 0) None
                                                 (Some (fun db => db))) 2)
            ++ attempt_ops (NewUser "carol@mit.edu" 0) None
       /\ commit_script s' = [None].
Proof.
  split; [reflexivity|]. split; [reflexivity|].
  split; [vm_compute; lia|].
  apply (add_to_db_other_error_propagates
           (NewUser "carol@mit.edu" 0) None (Some (fun db => db))
           flaky_session 2%nat (OtherError "OperationalError") [None]).
  - reflexivity.
  - reflexivity.
  - vm_compute. lia.
Defined.

(* ================================================================== *)
(** ** Tag replacement *)

(** Adding the tag objects of an event appends their rows, in order. *)
Lemma session_add_all_tags (event_id : Z) (tags : list Z) (s : Session) :
  session_add_all (map (NewEventTag event_id) tags) s
  = Ok tt (log (OpAddAll (map (NewEventTag event_id) tags))
               (with_working
                  (mkDB (users (working s)) (memberships (working s))
                        (events (working s))
                        (event_tags (working s) ++ map (mkEventTag event_id) tags))
                  s)).
Proof.
  unfold session_add_all. do 2 f_equal.
  revert s. induction tags as [|t tags IH]; intros s; cbn [map fold_left].
  - rewrite app_nil_r. now destruct s as [st [u m e g] c a i tr].
  - rewrite IH. unfold add_object, with_working. cbn.
    now rewrite <- app_assoc.
Qed.

Lemma filter_own_rows (event_id : Z) (tags : list Z) :
  filter (fun t => EventTag_event_id t =? event_id) (map (mkEventTag event_id) tags)
  = map (mkEventTag event_id) tags.
Proof.
  induction tags as [|t tags IH]; cbn; [reflexivity|].
  now rewrite Z.eqb_refl, IH.
Qed.

Lemma filter_own_rows_neg (event_id : Z) (tags : list Z) :
  filter (fun t => negb (EventTag_event_id t =? event_id))
         (map (mkEventTag event_id) tags) = [].
Proof.
  induction tags as [|t tags IH]; cbn; [reflexivity|].
  now rewrite Z.eqb_refl.
Qed.

Lemma filter_after_delete (event_id : Z) (l : list EventTag) :
  filter (fun t => EventTag_event_id t =? event_id)
         (filter (fun t => negb (EventTag_event_id t =? event_id)) l) = [].
Proof.
  induction l as [|x l IH]; cbn; [reflexivity|].
  destruct (EventTag_event_id x =? event_id) eqn:E; cbn; [exact IH|].
  now rewrite E.
Qed.

Lemma filter_idem {A} (p : A -> bool) (l : list A) :
  filter p (filter p l) = filter p l.
Proof.
  induction l as [|x l IH]; cbn; [reflexivity|].
  destruct (p x) eqn:E; cbn; [rewrite E|]; now rewrite IH.
Qed.

(** What a call of [add_event_tags] that returns has done. *)
Lemma add_event_tags_ok (event_id : Z) (tags : list Z) (s s' : Session) :
  add_event_tags event_id tags s = Ok tt s' ->
  event_tags (store s')
  = other_tag_rows event_id (working s) ++ map (mkEventTag event_id) tags
  /\ users (store s') = users (working s)
  /\ memberships (store s') = memberships (working s)
  /\ events (store s') = events (working s)
  /\ working s' = store s'
  /\ hd None (commit_script s) = None
  /\ commit_script s' = tl (commit_script s)
  /\ setattr_script s' = setattr_script s
  /\ trace s' = trace s ++ [OpDeleteEventTags event_id;
                            OpAddAll (map (NewEventTag event_id) tags);
                            OpCommit].
Proof.
  unfold add_event_tags, bind, delete_event_tags.
  rewrite session_add_all_tags. unfold session_commit.
  cbn [log with_working working store commit_script setattr_script identity trace].
  cbn [users memberships events event_tags].
  unfold other_tag_rows.
  destruct (commit_script s) as [|[e|] rest]; intros H; try discriminate;
    injection H as <-; cbn; rewrite <- !app_assoc; cbn; auto 10.
Qed.

(** [add_event_tags] returns whenever the store accepts its commit. *)
Lemma add_event_tags_returns (event_id : Z) (tags : list Z) (s : Session) :
  hd None (commit_script s) = None ->
  exists s', add_event_tags event_id tags s = Ok tt s'.
Proof.
  unfold add_event_tags, bind, delete_event_tags.
  rewrite session_add_all_tags. unfold session_commit.
  cbn [log with_working working store commit_script setattr_script identity trace].
  destruct (commit_script s) as [|[e|] rest]; cbn; intros H;
    try discriminate; eauto.
Qed.

(** C3: whenever [add_event_tags(session, event_id, event_tags)] returns, the
    tag rows linked to event_id are exactly the supplied tags (same values,
    same order, same multiplicity): a tag is linked to the event afterwards if
    and only if it is in the supplied list, so every earlier tag row of the
    event that is not supplied again is gone, whatever the earlier tags were.
    The rows of other events are untouched and the change is committed. *)
Theorem add_event_tags_replaces :
  forall (s s' : Session) (event_id : Z) (tags : list Z),
    add_event_tags event_id tags s = Ok tt s' ->
    tags_of event_id (store s') = tags
    /\ (forall t, In (mkEventTag event_id t) (event_tags (store s')) <-> In t tags)
    /\ (forall row, In row (event_tags (working s)) ->
                    EventTag_event_id row = event_id ->
                    ~ In (EventTag_tag row) tags ->
                    ~ In row (event_tags (store s')))
    /\ other_tag_rows event_id (store s') = other_tag_rows event_id (working s)
    /\ working s' = store s'.
Proof.
  intros s s' event_id tags Hrun.
  destruct (add_event_tags_ok _ _ _ _ Hrun) as (Htags & _ & _ & _ & Hw & _).
  assert (Hin : forall t, In (mkEventTag event_id t) (event_tags (store s'))
                          <-> In t tags).
  { intros t. rewrite Htags, in_app_iff. unfold other_tag_rows. split.
    - intros [H|H].
      + apply filter_In in H. destruct H as [_ H]. cbn in H.
        rewrite Z.eqb_refl in H. discriminate.
      + apply in_map_iff in H. destruct H as (t' & Ht & Hin). congruence.
    - intros H. right. now apply in_map. }
  split; [|split; [exact Hin|split; [|split; [|exact Hw]]]].
  - unfold tags_of. rewrite Htags, filter_app. unfold other_tag_rows.
    rewrite filter_after_delete, filter_own_rows. cbn [app].
    rewrite map_map. cbn. apply map_id.
  - intros row Hrow Hid Hnot Habs. apply Hnot. apply Hin.
    destruct row as [e t]. cbn in *. now subst e.
  - unfold other_tag_rows at 1. rewrite Htags, filter_app.
    unfold other_tag_rows. now rewrite filter_idem, filter_own_rows_neg, app_nil_r.
Qed.

(** C3, an instance: event 10 of [sample_db] carries tags 1 and 2; replacing
    them by the disjoint list [[3]] leaves exactly tag 3. *)
Lemma add_event_tags_replaces_witness :
  add_event_tags 10 [3] sample_session
  = Ok tt (final_session (add_event_tags 10 [3] sample_session))
  /\ tags_of 10 (store sample_session) = [1; 2]
  /\ tags_of 10 (store (final_session (add_event_tags 10 [3] sample_session))) = [3].
Proof.
  split; [reflexivity|]. split; [reflexivity|].
  apply (add_event_tags_replaces sample_session
           (final_session (add_event_tags 10 [3] sample_session)) 10 [3]).
  reflexivity.
Defined.

(* ================================================================== *)
(** ** Users *)

Lemma add_to_db_once_success (obj : Model) (s : Session) :
  hd None (commit_script s) = None ->
  exists s',
    add_to_db obj None None s = Ok true s'
    /\ working s' = fst (insert_row obj (working s))
    /\ store s' = working s'
    /\ identity s' = remember obj (snd (insert_row obj (working s))) (identity s)
    /\ commit_script s' = tl (commit_script s)
    /\ setattr_script s' = setattr_script s
    /\ trace s' = trace s ++ [OpAdd obj; OpCommit].
Proof.
  intros Hok.
  destruct (attempt_success obj None None MAX_COMMIT_RETRIES s Hok)
    as (s1 & Hrun & Hw & Hst & Hid & Hc & Hsa & Htr).
  exists s1. unfold add_to_db.
  change (Z.to_nat MAX_COMMIT_RETRIES) with 10%nat.
  cbn [add_to_db_loop negb andb]. change (MAX_COMMIT_RETRIES >? 0) with true.
  cbv iota. rewrite Hrun. cbn [fst snd negb andb].
  split; [reflexivity|].
  unfold added, added_session in *. cbn [fold_left] in *.
  unfold session_add, add_object in Hid.
  destruct (insert_row obj (working s)) as [w pk]. cbn in *. auto 10.
Qed.

Lemma Model_eqb_refl (m : Model) : Model_eqb m m = true.
Proof.
  destruct m; cbn; rewrite ?String.eqb_refl, ?Z.eqb_refl; reflexivity.
Qed.

Lemma find_app_none {A} (p : A -> bool) (l1 l2 : list A) :
  find p l1 = None -> find p (l1 ++ l2) = find p l2.
Proof.
  induction l1 as [|x l1 IH]; cbn; [reflexivity|].
  destruct (p x); [discriminate|exact IH].
Qed.

Lemma find_none_filter {A} (p : A -> bool) (l : list A) :
  find p l = None -> filter p l = [].
Proof.
  induction l as [|x l IH]; cbn; [reflexivity|].
  destruct (p x); [discriminate|exact IH].
Qed.

Lemma next_id_fresh (ids : list Z) : ~ In (next_id ids) ids.
Proof.
  assert (H : forall i, In i ids -> i <= fold_right Z.max 0 ids).
  { induction ids as [|x ids IH]; cbn; [tauto|].
    intros i [->|Hi]; [lia|]. specialize (IH i Hi). lia. }
  intros Hin. apply H in Hin. unfold next_id in Hin. lia.
Qed.

(** The email is registered: the row's id is returned and nothing is
    written. *)
Lemma add_user_existing (email : string) (user_privilege : Z) (s : Session)
    (u : User) :
  user_by_email email (working s) = Some u ->
  add_user email user_privilege s
  = Ok (Some (User_id u)) (log (OpQueryUserByEmail email) s).
Proof.
  intros Hu. unfold add_user, bind, query_user_by_email. now rewrite Hu.
Qed.

(** The email is not registered and the store accepts the insert: a row with
    a fresh id is created, and that id is returned. *)
Lemma add_user_created (email : string) (user_privilege : Z) (s : Session) :
  user_by_email email (working s) = None ->
  hd None (commit_script s) = None ->
  exists s',
    add_user email user_privilege s
    = Ok (Some (next_id (map User_id (users (working s))))) s'
    /\ users (working s')
       = users (working s)
         ++ [mkUser (next_id (map User_id (users (working s)))) email user_privilege]
    /\ memberships (working s') = memberships (working s)
    /\ events (working s') = events (working s)
    /\ event_tags (working s') = event_tags (working s)
    /\ store s' = working s'
    /\ commit_script s' = tl (commit_script s)
    /\ setattr_script s' = setattr_script s.
Proof.
  intros Hu Hok.
  unfold add_user, bind, query_user_by_email. rewrite Hu.
  destruct (add_to_db_once_success (NewUser email user_privilege)
              (log (OpQueryUserByEmail email) s) Hok)
    as (s1 & Hrun & Hw & Hst & Hid & Hc & Hsa & _).
  rewrite Hrun. unfold session_flush, object_id. cbn [log identity].
  rewrite Hid. cbn [log working insert_row snd fst remember find].
  rewrite Model_eqb_refl. cbn [option_map snd].
  eexists. split; [reflexivity|]. cbn.
  rewrite Hw, Hst, Hw, Hc, Hsa. cbn. auto 10.
Qed.

(** The email is not registered and the store answers the insert with a
    conflict: nothing is created and None is returned. *)
Lemma add_user_conflict (email : string) (user_privilege : Z) (s : Session)
    (rest : list (option Exn)) :
  user_by_email email (working s) = None ->
  commit_script s = Some IntegrityError :: rest ->
  exists s',
    add_user email user_privilege s = Ok None s'
    /\ working s' = store s /\ store s' = store s.
Proof.
  intros Hu Hs.
  unfold add_user, bind, query_user_by_email. rewrite Hu.
  destruct (add_to_db_no_callback_conflict (NewUser email user_privilege) None
              (log (OpQueryUserByEmail email) s) rest Hs)
    as (s1 & Hrun & Hst & Hw & _).
  rewrite Hrun. exists s1. auto.
Qed.

(** The email is not registered and the store fails in another way: the
    error propagates. *)
Lemma add_user_error (email : string) (user_privilege : Z) (s : Session)
    (e : Exn) (rest : list (option Exn)) :
  user_by_email email (working s) = None ->
  commit_script s = Some e :: rest ->
  is_IntegrityError e = false ->
  exists s', add_user email user_privilege s = Raise e s'.
Proof.
  intros Hu Hs He.
  unfold add_user, bind, query_user_by_email. rewrite Hu.
  unfold add_to_db. change (Z.to_nat MAX_COMMIT_RETRIES) with 10%nat.
  cbn [add_to_db_loop negb andb]. change (MAX_COMMIT_RETRIES >? 0) with true.
  cbv iota.
  destruct (attempt_error (NewUser email user_privilege) None None
              MAX_COMMIT_RETRIES (log (OpQueryUserByEmail email) s) e rest Hs He)
    as (s1 & Hrun & _).
  rewrite Hrun. eauto.
Qed.

Lemma find_some_filter_length {A} (p : A -> bool) (l : list A) (x : A) :
  find p l = Some x -> (1 <= List.length (filter p l))%nat.
Proof.
  induction l as [|y l IH]; cbn; [discriminate|].
  destruct (p y); cbn; [lia|exact IH].
Qed.

(** A call of [add_user] that returns an id leaves a row with that id as the
    first row of the email, and at most adds one row for the email to a table
    that had none. *)
Lemma add_user_some_inv (email : string) (user_privilege : Z) (s s1 : Session)
    (id : Z) :
  add_user email user_privilege s = Ok (Some id) s1 ->
  (exists u, user_by_email email (working s1) = Some u /\ User_id u = id)
  /\ (count_email email (working s) <= 1 -> count_email email (working s1) = 1)%nat
  /\ (forall u, user_by_email email (working s) = Some u ->
                id = User_id u /\ working s1 = working s /\ store s1 = store s).
Proof.
  intros Hrun.
  destruct (user_by_email email (working s)) as [u|] eqn:Hu.
  - rewrite (add_user_existing email user_privilege s u Hu) in Hrun.
    injection Hrun as <- <-. cbn [log working store].
    split; [eauto|]. split.
    + intros Hle. pose proof (find_some_filter_length _ _ _ Hu) as Hge.
      unfold count_email in *. lia.
    + intros u' Hu'. injection Hu' as <-. auto.
  - split; [|split; [|discriminate]].
    + destruct (commit_script s) as [|[e|] rest] eqn:Hs.
      * destruct (add_user_created email user_privilege s Hu) as (s' & Hc & Hus & _).
        { now rewrite Hs. }
        rewrite Hc in Hrun. injection Hrun as <- <-.
        unfold user_by_email in *. rewrite Hus, (find_app_none _ _ _ Hu).
        cbn. rewrite String.eqb_refl. eauto.
      * destruct (is_IntegrityError e) eqn:He.
        -- destruct e; try discriminate.
           destruct (add_user_conflict email user_privilege s rest Hu Hs)
             as (s' & Hc & _).
           rewrite Hc in Hrun. discriminate.
        -- destruct (add_user_error email user_privilege s e rest Hu Hs He)
             as (s' & Hc).
           rewrite Hc in Hrun. discriminate.
      * destruct (add_user_created email user_privilege s Hu) as (s' & Hc & Hus & _).
        { now rewrite Hs. }
        rewrite Hc in Hrun. injection Hrun as <- <-.
        unfold user_by_email in *. rewrite Hus, (find_app_none _ _ _ Hu).
        cbn. rewrite String.eqb_refl. eauto.
    + intros _.
      destruct (commit_script s) as [|[e|] rest] eqn:Hs.
      * destruct (add_user_created email user_privilege s Hu) as (s' & Hc & Hus & _).
        { now rewrite Hs. }
        rewrite Hc in Hrun. injection Hrun as <- <-.
        unfold count_email, user_by_email in *.
        rewrite Hus, filter_app, (find_none_filter _ _ Hu).
        cbn. now rewrite String.eqb_refl.
      * destruct (is_IntegrityError e) eqn:He.
        -- destruct e; try discriminate.
           destruct (add_user_conflict email user_privilege s rest Hu Hs)
             as (s' & Hc & _).
           rewrite Hc in Hrun. discriminate.
        -- destruct (add_user_error email user_privilege s e rest Hu Hs He)
             as (s' & Hc).
           rewrite Hc in Hrun. discriminate.
      * destruct (add_user_created email user_privilege s Hu) as (s' & Hc & Hus & _).
        { now rewrite Hs. }
        rewrite Hc in Hrun. injection Hrun as <- <-.
        unfold count_email, user_by_email in *.
        rewrite Hus, filter_app, (find_none_filter _ _ Hu).
        cbn. now rewrite String.eqb_refl.
Qed.

(** C4: [add_user] is idempotent by email.  If a row with the email exists,
    its id is returned and nothing is written.  If none exists, a row is
    created and its new id returned when the store accepts the insert, and
    None is returned, with no row created, when the store answers with a
    conflict.  Whenever a call returns an id, a second call with the same
    email (and any privilege) returns the same id and adds no row, and if the
    table held at most one row with that email before the two calls it holds
    exactly one after them. *)
Theorem add_user_idempotent_by_email :
  forall (s : Session) (email : string) (p1 p2 : Z),
    (forall u, user_by_email email (working s) = Some u ->
       exists s', add_user email p1 s = Ok (Some (User_id u)) s'
                  /\ working s' = working s /\ store s' = store s)
    /\ (user_by_email email (working s) = None ->
        hd None (commit_script s) = None ->
        exists id s',
          add_user email p1 s = Ok (Some id) s'
          /\ ~ In id (map User_id (users (working s)))
          /\ users (working s') = users (working s) ++ [mkUser id email p1]
          /\ store s' = working s')
    /\ (user_by_email email (working s) = None ->
        forall rest, commit_script s = Some IntegrityError :: rest ->
        exists s', add_user email p1 s = Ok None s'
                   /\ working s' = store s /\ store s' = store s)
    /\ (forall id s1,
          add_user email p1 s = Ok (Some id) s1 ->
          exists s2,
            add_user email p2 s1 = Ok (Some id) s2
            /\ users (working s2) = users (working s1)
            /\ ((count_email email (working s) <= 1)%nat ->
                count_email email (working s2) = 1%nat)).
Proof.
  intros s email p1 p2.
  split; [|split; [|split]].
  - intros u Hu. rewrite (add_user_existing email p1 s u Hu).
    eexists. split; [reflexivity|]. auto.
  - intros Hu Hok.
    destruct (add_user_created email p1 s Hu Hok) as (s' & Hc & Hus & _ & _ & _ & Hst & _).
    exists (next_id (map User_id (users (working s)))), s'.
    split; [exact Hc|]. split; [apply next_id_fresh|]. auto.
  - intros Hu rest Hs. exact (add_user_conflict email p1 s rest Hu Hs).
  - intros id s1 Hrun.
    destruct (add_user_some_inv email p1 s s1 id Hrun) as ([u [Hu Hid]] & Hcount & _).
    rewrite (add_user_existing email p2 s1 u Hu). subst id.
    eexists. split; [reflexivity|]. cbn [log working]. auto.
Qed.

(* ================================================================== *)
(** ** Club memberships *)

Lemma no_fault_head (script : list (option Exn)) :
  Forall (fun v => v = None) script ->
  hd None script = None /\ Forall (fun v => v = None) (tl script).
Proof.
  intros H. destruct script as [|v rest]; cbn; [auto|].
  inversion H; subst. auto.
Qed.

Lemma find_update_first {A} (p : A -> bool) (f : A -> A) (l : list A) :
  (forall x, p x = true -> p (f x) = true) ->
  find p (update_first p f l) = option_map f (find p l).
Proof.
  intros Hp. induction l as [|x l IH]; cbn; [reflexivity|].
  destruct (p x) eqn:E; cbn.
  - now rewrite (Hp x E).
  - now rewrite E.
Qed.

Lemma filter_update_first_length {A} (p : A -> bool) (f : A -> A) (l : list A) :
  (forall x, p x = true -> p (f x) = true) ->
  List.length (filter p (update_first p f l)) = List.length (filter p l).
Proof.
  intros Hp. induction l as [|x l IH]; cbn; [reflexivity|].
  destruct (p x) eqn:E; cbn.
  - now rewrite (Hp x E).
  - now rewrite E.
Qed.

Lemma set_privilege_same_pair (club_id user_id v : Z) (m : ClubMembership) :
  is_membership_of club_id user_id m = true ->
  is_membership_of club_id user_id (set_privilege v m) = true.
Proof. intros H. exact H. Qed.

Lemma is_membership_of_inv (club_id user_id : Z) (m : ClubMembership) :
  is_membership_of club_id user_id m = true ->
  ClubMembership_club_id m = club_id /\ ClubMembership_user_id m = user_id.
Proof.
  unfold is_membership_of. intros H. apply andb_true_iff in H.
  destruct H as [H1 H2]. apply Z.eqb_eq in H1, H2. auto.
Qed.

Lemma add_club_member_run (club_id user_id member_privilege : Z) (s : Session) :
  no_faults s ->
  exists s',
    add_club_member club_id user_id member_privilege s = Ok tt s'
    /\ no_faults s'
    /\ (clean s -> clean s')
    /\ memberships (working s')
       = memberships_after club_id user_id member_privilege (memberships (working s))
    /\ users (working s') = users (working s)
    /\ events (working s') = events (working s)
    /\ event_tags (working s') = event_tags (working s).
Proof.
  intros [Hc Hsa].
  destruct (no_fault_head _ Hc) as [Hc0 Hc1].
  destruct (no_fault_head _ Hsa) as [Hsa0 Hsa1].
  unfold add_club_member, bind, query_membership, memberships_after.
  destruct (find (is_membership_of club_id user_id) (memberships (working s)))
    as [curr|] eqn:Hfind.
  - destruct (member_privilege >? ClubMembership_member_privilege curr).
    + apply find_some in Hfind. destruct Hfind as [_ Hpair].
      apply is_membership_of_inv in Hpair. destruct Hpair as [Hcl Hus].
      unfold setattr_member_privilege, session_commit. rewrite Hcl, Hus.
      cbn [log with_working working store commit_script setattr_script identity trace].
      destruct (setattr_script s) as [|[e|] srest]; cbn in Hsa0; try discriminate;
        destruct (commit_script s) as [|[e'|] crest]; cbn in Hc0; try discriminate;
        cbn; eexists; (split; [reflexivity|]); cbn; unfold no_faults, clean; cbn;
        auto 10.
    + exists (log (OpQueryMembership user_id club_id) s).
      split; [reflexivity|]. unfold no_faults, clean. cbn. auto 10.
  - destruct (add_to_db_once_success
                (NewClubMembership user_id club_id member_privilege)
                (log (OpQueryMembership user_id club_id) s) Hc0)
      as (s1 & Hrun & Hw & Hst & _ & Hcs & Hss & _).
    rewrite Hrun. exists s1. split; [reflexivity|].
    unfold no_faults, clean. rewrite Hcs, Hss, Hst, Hw. cbn. auto 10.
Qed.

Lemma memberships_after_existing (club_id user_id p : Z)
    (l : list ClubMembership) (curr : ClubMembership) :
  find (is_membership_of club_id user_id) l = Some curr ->
  option_map ClubMembership_member_privilege
    (find (is_membership_of club_id user_id) (memberships_after club_id user_id p l))
  = Some (Z.max (ClubMembership_member_privilege curr) p)
  /\ List.length (filter (is_membership_of club_id user_id)
                         (memberships_after club_id user_id p l))
     = List.length (filter (is_membership_of club_id user_id) l)
  /\ List.length (memberships_after club_id user_id p l) = List.length l.
Proof.
  intros Hfind. unfold memberships_after. rewrite Hfind.
  destruct (p >? ClubMembership_member_privilege curr) eqn:Hgt.
  - apply Z.gtb_lt in Hgt.
    rewrite find_update_first, filter_update_first_length
      by (intros x Hx; exact Hx).
    rewrite Hfind. cbn. split; [f_equal; lia|]. split; [reflexivity|].
    clear. induction l as [|x l IH]; cbn; [reflexivity|].
    destruct (is_membership_of club_id user_id x); cbn; congruence.
  - rewrite Hfind. cbn. split; [|auto].
    f_equal. destruct (Z.gtb_spec p (ClubMembership_member_privilege curr));
      [discriminate|lia].
Qed.

Lemma memberships_after_absent (club_id user_id p : Z) (l : list ClubMembership) :
  find (is_membership_of club_id user_id) l = None ->
  option_map ClubMembership_member_privilege
    (find (is_membership_of club_id user_id) (memberships_after club_id user_id p l))
  = Some p
  /\ List.length (filter (is_membership_of club_id user_id)
                         (memberships_after club_id user_id p l)) = 1%nat
  /\ memberships_after club_id user_id p l
     = l ++ [mkClubMembership user_id club_id p].
Proof.
  intros Hfind. unfold memberships_after. rewrite Hfind.
  assert (Hnew : is_membership_of club_id user_id
                   (mkClubMembership user_id club_id p) = true).
  { unfold is_membership_of. cbn. now rewrite !Z.eqb_refl. }
  rewrite (find_app_none _ _ _ Hfind), filter_app, (find_none_filter _ _ Hfind).
  cbn. rewrite Hnew. auto.
Qed.




(* ================================================================== *)
(** ** Ordering of query results *)

Section Orders.
Context {A : Type} (cmp : A -> A -> comparison) `{TC : !TotalCompare cmp}.

Lemma cmp_refl (x : A) : cmp x x = Eq.
Proof. now apply cmp_eq_iff. Qed.

Lemma cmp_gt_lt (x y : A) : cmp x y = Gt -> cmp y x = Lt.
Proof. intros H. now rewrite cmp_antisym, H. Qed.

Lemma cmp_le_trans (x y z : A) :
  cmp x y <> Gt -> cmp y z <> Gt -> cmp x z <> Gt.
Proof.
  intros Hxy Hyz Hxz.
  destruct (cmp x y) eqn:E1; [| |congruence].
  - apply cmp_eq_iff in E1. subst y. congruence.
  - destruct (cmp y z) eqn:E2; [| |congruence].
    + apply cmp_eq_iff in E2. subst z. congruence.
    + rewrite (cmp_lt_trans x y z E1 E2) in Hxz. discriminate.
Qed.

End Orders.

#[local] Instance Z_TotalCompare : TotalCompare Z.compare.
Proof.
  split.
  - intros x y. apply Z.compare_eq_iff.
  - intros x y. apply Z.compare_antisym.
  - intros x y z. rewrite !Z.compare_lt_iff. lia.
Qed.

#[local] Instance string_TotalCompare : TotalCompare String.compare.
Proof.
  split.
  - intros x y. apply String_as_OT.cmp_eq.
  - intros x y. apply String_as_OT.cmp_antisym.
  - intros x y z. change String.compare with String_as_OT.cmp.
    rewrite !String_as_OT.cmp_lt. apply String_as_OT.lt_trans.
Qed.

#[local] Instance pair_TotalCompare {A B} (cA : A -> A -> comparison)
    (cB : B -> B -> comparison) `{!TotalCompare cA} `{!TotalCompare cB} :
  TotalCompare (pair_compare cA cB).
Proof.
  split.
  - intros [a1 b1] [a2 b2]. unfold pair_compare, lex. cbn. split.
    + destruct (cA a1 a2) eqn:E; try discriminate.
      intros H. apply cmp_eq_iff in E, H. congruence.
    + intros H. injection H as -> ->.
      now rewrite (cmp_refl cA), (cmp_refl cB).
  - intros [a1 b1] [a2 b2]. unfold pair_compare, lex. cbn.
    rewrite (cmp_antisym (cmp := cA) a1 a2), (cmp_antisym (cmp := cB) b1 b2).
    destruct (cA a1 a2); reflexivity.
  - intros [a1 b1] [a2 b2] [a3 b3]. unfold pair_compare, lex. cbn.
    destruct (cA a1 a2) eqn:E1; try discriminate.
    + apply cmp_eq_iff in E1. subst a2.
      destruct (cA a1 a3) eqn:E2; try discriminate; auto.
      apply (cmp_lt_trans (cmp := cB)).
    + destruct (cA a2 a3) eqn:E2; try discriminate.
      * apply cmp_eq_iff in E2. subst a3. now rewrite E1.
      * now rewrite (cmp_lt_trans (cmp := cA) _ _ _ E1 E2).
Qed.

#[local] Instance option_TotalCompare {A} (cA : A -> A -> comparison)
    `{!TotalCompare cA} : TotalCompare (option_compare cA).
Proof.
  split.
  - intros [x|] [y|]; cbn; split; try discriminate; try reflexivity.
    + intros H. apply cmp_eq_iff in H. congruence.
    + intros H. injection H as ->. now apply (cmp_refl cA).
  - intros [x|] [y|]; cbn; try reflexivity. apply (cmp_antisym (cmp := cA)).
  - intros [x|] [y|] [z|]; cbn; try discriminate; auto.
    apply (cmp_lt_trans (cmp := cA)).
Qed.

(** A comparison computed through an injective key inherits the order. *)
Lemma TotalCompare_by_key {A K} (key : A -> K) (cK : K -> K -> comparison)
    (cA : A -> A -> comparison) `{!TotalCompare cK} :
  (forall x y, key x = key y -> x = y) ->
  (forall x y, cA x y = cK (key x) (key y)) ->
  TotalCompare cA.
Proof.
  intros Hinj Hc. split.
  - intros x y. rewrite Hc, (cmp_eq_iff (cmp := cK)).
    split; [apply Hinj|congruence].
  - intros x y. rewrite !Hc. apply (cmp_antisym (cmp := cK)).
  - intros x y z. rewrite !Hc. apply (cmp_lt_trans (cmp := cK)).
Qed.

#[local] Instance date_TotalCompare : TotalCompare date_compare.
Proof.
  apply (TotalCompare_by_key
           (fun d => (year d, (month d, day d)))
           (pair_compare Z.compare (pair_compare Z.compare Z.compare))).
  - typeclasses eauto.
  - intros [y1 m1 d1] [y2 m2 d2]. cbn. congruence.
  - reflexivity.
Qed.

#[local] Instance time_TotalCompare : TotalCompare time_compare.
Proof.
  apply (TotalCompare_by_key
           (fun t => (hour t, (minute t, second t)))
           (pair_compare Z.compare (pair_compare Z.compare Z.compare))).
  - typeclasses eauto.
  - intros [h1 m1 s1] [h2 m2 s2]. cbn. congruence.
  - reflexivity.
Qed.

#[local] Instance key_TotalCompare : TotalCompare key_compare.
Proof. unfold key_compare. typeclasses eauto. Qed.

Lemma event_compare_key (a b : Event) :
  event_compare a b = key_compare (event_key a) (event_key b).
Proof. reflexivity. Qed.

Lemma event_le_total (a b : Event) : event_leb a b = false -> event_le b a.
Proof.
  unfold event_le, event_leb. rewrite !event_compare_key.
  destruct (key_compare (event_key a) (event_key b)) eqn:E; try discriminate.
  intros _. now rewrite (cmp_gt_lt key_compare _ _ E).
Qed.

Lemma event_le_trans (a b c : Event) : event_le a b -> event_le b c -> event_le a c.
Proof.
  unfold event_le, event_leb. rewrite !event_compare_key.
  intros Hab Hbc.
  assert (H : key_compare (event_key a) (event_key c) <> Gt).
  { apply (cmp_le_trans key_compare _ (event_key b)).
    - destruct (key_compare (event_key a) (event_key b)); congruence.
    - destruct (key_compare (event_key b) (event_key c)); congruence. }
  destruct (key_compare (event_key a) (event_key c)); congruence.
Qed.

Lemma insert_event_perm (e : Event) (l : list Event) :
  Permutation (insert_event e l) (e :: l).
Proof.
  induction l as [|x l IH]; cbn; [reflexivity|].
  destruct (event_leb e x); [reflexivity|].
  rewrite IH. apply perm_swap.
Qed.

Lemma order_events_perm (l : list Event) : Permutation (order_events l) l.
Proof.
  induction l as [|x l IH]; cbn; [reflexivity|].
  rewrite insert_event_perm. now constructor.
Qed.

Lemma insert_event_sorted (e : Event) (l : list Event) :
  StronglySorted event_le l -> StronglySorted event_le (insert_event e l).
Proof.
  induction 1 as [|x l Hs IH Hall]; cbn.
  - constructor; constructor.
  - destruct (event_leb e x) eqn:E.
    + constructor; [constructor; assumption|].
      constructor; [exact E|].
      eapply Forall_impl; [|exact Hall].
      intros y Hy. eapply event_le_trans; eauto.
    + constructor; [exact IH|].
      apply Forall_forall. intros y Hy.
      apply (Permutation_in _ (insert_event_perm e l)) in Hy.
      destruct Hy as [<-|Hy].
      * now apply event_le_total.
      * rewrite Forall_forall in Hall. now apply Hall.
Qed.

Lemma order_events_sorted (l : list Event) : StronglySorted event_le (order_events l).
Proof.
  induction l as [|x l IH]; cbn; [constructor|].
  now apply insert_event_sorted.
Qed.

(* ================================================================== *)
(** ** Events of a month *)

Lemma date_leb_le (a b : date) : date_leb a b = true <-> date_le a b.
Proof.
  unfold date_leb, date_compare, date_le, lex.
  destruct (Z.compare_spec (year a) (year b));
    destruct (Z.compare_spec (month a) (month b));
    destruct (Z.compare_spec (day a) (day b));
    split; intros Hx; try reflexivity; try discriminate; try lia.
Qed.

Lemma isleap_spec (y : Z) : isleap y = true <-> is_leap_year y.
Proof.
  unfold isleap, is_leap_year.
  rewrite andb_true_iff, orb_true_iff, negb_true_iff, Z.eqb_neq, !Z.eqb_eq.
  rewrite <- !Z.mod_divide by lia. tauto.
Qed.

Lemma month_cases (m : Z) :
  1 <= m <= 12 ->
  m = 1 \/ m = 2 \/ m = 3 \/ m = 4 \/ m = 5 \/ m = 6
  \/ m = 7 \/ m = 8 \/ m = 9 \/ m = 10 \/ m = 11 \/ m = 12.
Proof. lia. Qed.

Lemma monthrange_ndays_bounds (y m : Z) :
  1 <= m <= 12 -> 28 <= monthrange_ndays y m <= 31.
Proof.
  intros Hm. unfold monthrange_ndays.
  destruct (month_cases m Hm) as [->|[->|[->|[->|[->|[->|[->|[->|[->|[->|[->| ->]]]]]]]]]]];
    cbn; try lia.
  destruct (isleap y); lia.
Qed.

(** The length of each month, with the leap-year rule for February. *)
Lemma monthrange_ndays_calendar (y m : Z) :
  (m = 2 -> (is_leap_year y -> monthrange_ndays y m = 29)
            /\ (~ is_leap_year y -> monthrange_ndays y m = 28))
  /\ (In m [4; 6; 9; 11] -> monthrange_ndays y m = 30)
  /\ (In m [1; 3; 5; 7; 8; 10; 12] -> monthrange_ndays y m = 31).
Proof.
  unfold monthrange_ndays. split; [|split].
  - intros ->. cbn. rewrite <- isleap_spec.
    destruct (isleap y); split; intros H; try reflexivity;
      try discriminate; exfalso; auto.
  - cbn. intros [<-|[<-|[<-|[<-|[]]]]]; reflexivity.
  - cbn. intros [<-|[<-|[<-|[<-|[<-|[<-|[<-|[]]]]]]]]; reflexivity.
Qed.

Lemma make_date_ok (y m d : Z) (s : Session) :
  MINYEAR <= y <= MAXYEAR -> 1 <= m <= 12 -> 1 <= d <= monthrange_ndays y m ->
  make_date y m d s = Ok (mkDate y m d) s.
Proof.
  intros Hy Hm Hd. unfold make_date.
  pose proof (monthrange_ndays_bounds y m Hm) as Hb.
  assert (Hfit : forall n, 0 <= n <= 9999 -> fits_c_int n = true).
  { intros n Hn. unfold fits_c_int, INT_MIN, INT_MAX.
    apply andb_true_iff. rewrite !Z.leb_le. lia. }
  unfold MINYEAR, MAXYEAR in Hy.
  rewrite !Hfit by lia. cbn [andb negb].
  unfold MINYEAR, MAXYEAR.
  replace (1 <=? y) with true by (symmetry; apply Z.leb_le; lia).
  replace (y <=? 9999) with true by (symmetry; apply Z.leb_le; lia).
  replace (1 <=? m) with true by (symmetry; apply Z.leb_le; lia).
  replace (m <=? 12) with true by (symmetry; apply Z.leb_le; lia).
  replace (1 <=? d) with true by (symmetry; apply Z.leb_le; lia).
  replace (d <=? monthrange_ndays y m) with true by (symmetry; apply Z.leb_le; lia).
  reflexivity.
Qed.

(** For a month of 1..12 and a year of the calendar, the function is the
    range query from the first to the last day of the month. *)
Lemma get_events_by_month_run (now_year month y : Z) (s : Session) :
  1 <= month <= 12 -> MINYEAR <= y <= MAXYEAR ->
  get_events_by_month now_year month (Some y) s
  = query_events_between (mkDate y month 1)
                         (mkDate y month (monthrange_ndays y month)) s.
Proof.
  intros Hm Hy. unfold get_events_by_month.
  replace (1 <=? month) with true by (symmetry; apply Z.leb_le; lia).
  replace (month <=? 12) with true by (symmetry; apply Z.leb_le; lia).
  cbn [andb negb truthy_int].
  replace (y =? 0) with false by (symmetry; apply Z.eqb_neq; unfold MINYEAR in Hy; lia).
  cbn [negb]. unfold bind.
  pose proof (monthrange_ndays_bounds y month Hm) as Hb.
  rewrite make_date_ok by (auto; lia).
  rewrite make_date_ok by (auto; lia).
  reflexivity.
Qed.

(** An omitted (or None, or zero) year stands for the current year. *)
Lemma get_events_by_month_default_year (now_year month : Z) (s : Session) :
  get_events_by_month now_year month None s
  = get_events_by_month now_year month (Some now_year) s.
Proof.
  unfold get_events_by_month. cbn [truthy_int negb].
  destruct (now_year =? 0); reflexivity.
Qed.

(** C6: for a month of 1..12 and a year of the calendar (1..9999),
    [get_events_by_month] returns exactly the events whose start_date lies
    between the first day of that month and its last day inclusive, where the
    last day follows the calendar (29 February in a leap year, as in 2024):
    the result is a permutation of those rows, and it is sorted by start_date,
    then start_time, then title.  With the year omitted or None the call is
    the one for the current year.  The query writes nothing. *)
Theorem get_events_by_month_spec :
  forall (s : Session) (now_year month y : Z),
    1 <= month <= 12 ->
    MINYEAR <= y <= MAXYEAR ->
    let first_day := mkDate y month 1 in
    let last_day := mkDate y month (monthrange_ndays y month) in
    exists evs s',
      get_events_by_month now_year month (Some y) s = Ok evs s'
      /\ Permutation evs
           (filter (start_date_between first_day last_day) (events (working s)))
      /\ (forall e, In e evs <->
                    In e (events (working s))
                    /\ exists d, Event_start_date e = Some d
                                 /\ date_le first_day d /\ date_le d last_day)
      /\ StronglySorted event_le evs
      /\ (forall a b, event_le a b <->
                      key_compare (event_key a) (event_key b) <> Gt)
      /\ (month = 2 -> (is_leap_year y -> day last_day = 29)
                       /\ (~ is_leap_year y -> day last_day = 28))
      /\ (In month [4; 6; 9; 11] -> day last_day = 30)
      /\ (In month [1; 3; 5; 7; 8; 10; 12] -> day last_day = 31)
      /\ get_events_by_month now_year month None s
         = get_events_by_month now_year month (Some now_year) s
      /\ working s' = working s /\ store s' = store s.
Proof.
  intros s now_year month y Hm Hy first_day last_day.
  rewrite (get_events_by_month_run now_year month y s Hm Hy).
  fold first_day last_day. unfold query_events_between.
  eexists _, _. split; [reflexivity|].
  split; [apply order_events_perm|].
  split.
  { intros e. split.
    - intros Hin. apply (Permutation_in _ (order_events_perm _)) in Hin.
      apply filter_In in Hin. destruct Hin as [Hin Hb]. split; [exact Hin|].
      unfold start_date_between in Hb.
      destruct (Event_start_date e) as [d|]; [|discriminate].
      apply andb_true_iff in Hb. destruct Hb as [H1 H2].
      exists d. rewrite <- !date_leb_le. auto.
    - intros [Hin (d & Hd & H1 & H2)].
      apply (Permutation_in _ (Permutation_sym (order_events_perm _))).
      apply filter_In. split; [exact Hin|].
      unfold start_date_between. rewrite Hd.
      apply date_leb_le in H1, H2. now rewrite H1, H2. }
  split; [apply order_events_sorted|].
  split.
  { intros a b. unfold event_le, event_leb. rewrite event_compare_key.
    destruct (key_compare (event_key a) (event_key b)); split; congruence. }
  destruct (monthrange_ndays_calendar y month) as (Hfeb & H30 & H31).
  split; [exact Hfeb|]. split; [exact H30|]. split; [exact H31|].
  split; [apply get_events_by_month_default_year|].
  cbn. auto.
Qed.

(** C6, an instance: February 2024 in [sample_db]; the event of 29 February
    is returned. *)
Lemma get_events_by_month_spec_witness :
  1 <= 2 <= 12 /\ MINYEAR <= 2024 <= MAXYEAR
  /\ returned (get_events_by_month 2026 2 (Some 2024) sample_session)
     = Some [party]
  /\ monthrange_ndays 2024 2 = 29.
Proof.
  split; [lia|]. split; [unfold MINYEAR, MAXYEAR; lia|].
  split; [|reflexivity].
  destruct (get_events_by_month_spec sample_session 2026 2 2024)
    as (evs & s' & Hrun & _); [lia|unfold MINYEAR, MAXYEAR; lia|].
  rewrite Hrun. cbn [returned]. f_equal.
  vm_compute in Hrun. injection Hrun as <- _. reflexivity.
Defined.

(* ================================================================== *)
(** ** Updating the description *)

(** No event with that id: false, and nothing is touched. *)
Lemma update_event_description_absent (event_id : Z) (description : string)
    (description_html : option string) (s : Session) :
  event_by_id event_id (working s) = None ->
  update_event_description event_id description description_html s
  = Ok false (log (OpQueryEventById event_id) s).
Proof.
  intros He. unfold update_event_description, bind, query_event_by_id.
  now rewrite He.
Qed.

(** An assignment that raises is caught: the transaction is rolled back,
    nothing is committed and false is returned. *)
Lemma update_event_description_setter_fails (event_id : Z) (description : string)
    (description_html : option string) (s : Session) (e0 : Event) (e : Exn) :
  event_by_id event_id (working s) = Some e0 ->
  (exists rest, setattr_script s = Some e :: rest
                \/ setattr_script s = None :: Some e :: rest) ->
  exists s',
    update_event_description event_id description description_html s = Ok false s'
    /\ working s' = store s /\ store s' = store s
    /\ commit_script s' = commit_script s
    /\ exists ops, trace s' = trace s ++ ops ++ [OpRollback]
                   /\ count_commits ops = 0%nat.
Proof.
  intros He (rest & [Hs|Hs]);
    unfold update_event_description, bind, query_event_by_id, try_except_else,
           setattr, session_rollback;
    rewrite He; cbn [log with_working working store commit_script setattr_script
                     identity trace];
    rewrite Hs; cbn; eexists; (split; [reflexivity|]); cbn;
    repeat (split; [reflexivity|]).
  - exists [OpQueryEventById event_id; OpSetAttr (Event_id e0) (Set_description description)].
    rewrite <- !app_assoc. split; reflexivity.
  - exists [OpQueryEventById event_id; OpSetAttr (Event_id e0) (Set_description description);
            OpSetAttr (Event_id e0) (Set_description_html description_html)].
    rewrite <- !app_assoc. split; reflexivity.
Qed.

Lemma apply_assignment_id (a : Assignment) (e : Event) :
  Event_id (apply_assignment a e) = Event_id e.
Proof. destruct e, a; reflexivity. Qed.

Lemma apply_assignment_owner (a : Assignment) (e : Event) :
  owner_fields (apply_assignment a e) = owner_fields e.
Proof. destruct e, a; reflexivity. Qed.

Lemma event_by_id_assign_in (event_id : Z) (a : Assignment) (w : DB) :
  event_by_id event_id (assign_in event_id a w)
  = option_map (apply_assignment a) (event_by_id event_id w).
Proof.
  unfold event_by_id, assign_in. cbn [events].
  apply find_update_first. intros x Hx. now rewrite apply_assignment_id.
Qed.

Lemma setattr_no_fault (event : Event) (a : Assignment) (s : Session) :
  hd None (setattr_script s) = None ->
  setattr event a s
  = Ok tt (mkSession (store s) (assign_in (Event_id event) a (working s))
                     (commit_script s) (tl (setattr_script s)) (identity s)
                     (trace s ++ [OpSetAttr (Event_id event) a])).
Proof.
  unfold setattr.
  cbn [log store working commit_script setattr_script identity trace].
  destruct (setattr_script s) as [|[e|] rest]; cbn;
    intros H; try discriminate; reflexivity.
Qed.

Lemma session_commit_no_fault (s : Session) :
  hd None (commit_script s) = None ->
  session_commit s
  = Ok tt (mkSession (working s) (working s) (tl (commit_script s))
                     (setattr_script s) (identity s) (trace s ++ [OpCommit])).
Proof.
  unfold session_commit.
  cbn [log store working commit_script setattr_script identity trace].
  destruct (commit_script s) as [|[e|] rest]; cbn;
    intros H; try discriminate; reflexivity.
Qed.

Lemma session_commit_fault (s : Session) (e : Exn) (rest : list (option Exn)) :
  commit_script s = Some e :: rest ->
  session_commit s
  = Raise e (mkSession (store s) (working s) rest (setattr_script s)
                       (identity s) (trace s ++ [OpCommit])).
Proof. unfold session_commit. intros ->. reflexivity. Qed.

(** Both assignments and the commit go through: the two description fields
    are updated, the change is committed and true is returned. *)
Lemma update_event_description_ok (event_id : Z) (description : string)
    (description_html : option string) (s : Session) (e0 : Event) :
  event_by_id event_id (working s) = Some e0 ->
  no_faults s ->
  exists s',
    update_event_description event_id description description_html s = Ok true s'
    /\ event_by_id event_id (store s')
       = Some (apply_assignment (Set_description_html description_html)
                 (apply_assignment (Set_description description) e0))
    /\ working s' = store s'
    /\ exists ops, trace s' = trace s ++ ops ++ [OpCommit].
Proof.
  intros He [Hc Hsa].
  assert (Hid : Event_id e0 = event_id).
  { apply find_some in He. destruct He as [_ He]. now apply Z.eqb_eq in He. }
  destruct (no_fault_head _ Hsa) as [Hsa0 Hsa1].
  destruct (no_fault_head _ Hsa1) as [Hsa2 _].
  destruct (no_fault_head _ Hc) as [Hc0 _].
  unfold update_event_description, bind, query_event_by_id, try_except_else.
  rewrite He.
  rewrite setattr_no_fault by exact Hsa0.
  rewrite setattr_no_fault by exact Hsa2.
  rewrite session_commit_no_fault by exact Hc0.
  cbn [log with_working working store commit_script setattr_script identity trace
       negb ret].
  eexists. split; [reflexivity|]. cbn [store working trace].
  rewrite Hid, !event_by_id_assign_in, He. cbn [option_map].
  split; [reflexivity|]. split; [reflexivity|].
  exists [OpQueryEventById event_id;
          OpSetAttr event_id (Set_description description);
          OpSetAttr event_id (Set_description_html description_html)].
  rewrite <- !app_assoc. reflexivity.
Qed.

(** Both assignments go through and the store rejects the commit with [e]:
    [e] leaves the function as an exception; there is no rollback and no
    boolean. *)
Lemma update_event_description_commit_fails (event_id : Z) (description : string)
    (description_html : option string) (s : Session) (e0 : Event) (e : Exn)
    (rest : list (option Exn)) :
  event_by_id event_id (working s) = Some e0 ->
  Forall (fun v => v = None) (setattr_script s) ->
  commit_script s = Some e :: rest ->
  exists s',
    update_event_description event_id description description_html s = Raise e s'
    /\ store s' = store s
    /\ trace s' = trace s ++ [OpQueryEventById event_id;
                              OpSetAttr event_id (Set_description description);
                              OpSetAttr event_id (Set_description_html description_html);
                              OpCommit].
Proof.
  intros He Hsa Hc.
  assert (Hid : Event_id e0 = event_id).
  { apply find_some in He. destruct He as [_ He]. now apply Z.eqb_eq in He. }
  destruct (no_fault_head _ Hsa) as [Hsa0 Hsa1].
  destruct (no_fault_head _ Hsa1) as [Hsa2 _].
  unfold update_event_description, bind, query_event_by_id, try_except_else.
  rewrite He.
  rewrite setattr_no_fault by exact Hsa0.
  rewrite setattr_no_fault by exact Hsa2.
  erewrite session_commit_fault by exact Hc.
  eexists. split; [reflexivity|]. cbn [store trace log]. rewrite Hid.
  split; [reflexivity|]. rewrite <- !app_assoc. reflexivity.
Qed.

(** C7, the failing input: event 10 exists and the store rejects the commit
    with a DataError.  The specification has false returned after a rollback;
    the function raises the DataError, returns no boolean and makes no
    rollback call; the commit was the only write attempted and the committed
    store is unchanged. *)
Lemma update_event_description_commit_error_escapes :
  let r := update_event_description 10 "New text" None failing_commit_session in
  event_by_id 10 (working failing_commit_session) = Some party
  /\ returned r = None
  /\ (exists s', r = Raise (OtherError "DataError") s')
  /\ ~ In OpRollback (trace (final_session r))
  /\ count_commits (trace (final_session r)) = 1%nat
  /\ store (final_session r) = store failing_commit_session.
Proof.
  cbv zeta. split; [reflexivity|]. split; [reflexivity|].
  split; [eexists; reflexivity|].
  split; [|split; reflexivity].
  vm_compute. intros H.
  repeat (destruct H as [H|H]; [discriminate|]). exact H.
Qed.

(* ================================================================== *)
(** ** Updating an event *)

Section Maintains.
Context (P : Session -> Prop).

Lemma maintains_ret {A} (a : A) : maintains P (ret a).
Proof. intros s Hs. exact Hs. Qed.

Lemma maintains_bind {A B} (m : M A) (f : A -> M B) :
  maintains P m -> (forall a, maintains P (f a)) -> maintains P (bind m f).
Proof.
  intros Hm Hf s Hs. unfold bind. specialize (Hm s Hs).
  destruct (m s) as [a s1|e s1]; cbn in *; [now apply Hf|exact Hm].
Qed.

Lemma maintains_try {A B} (body : M A) (catches : Exn -> bool)
    (handler : M B) (orelse : A -> M B) :
  maintains P body -> maintains P handler ->
  (forall a, maintains P (orelse a)) ->
  maintains P (try_except_else body catches handler orelse).
Proof.
  intros Hb Hh Ho s Hs. unfold try_except_else. specialize (Hb s Hs).
  destruct (body s) as [a s1|e s1]; cbn in *; [now apply Ho|].
  destruct (catches e); [now apply Hh|exact Hb].
Qed.

End Maintains.

Lemma owners_update_first (event_id : Z) (a : Assignment) (l : list Event) :
  map owner_fields
      (update_first (fun e => Event_id e =? event_id) (apply_assignment a) l)
  = map owner_fields l.
Proof.
  induction l as [|x l IH]; cbn; [reflexivity|].
  destruct (Event_id x =? event_id); cbn.
  - now rewrite apply_assignment_owner.
  - now rewrite IH.
Qed.

Section OwnerFrame.
Context (o : list (Z * Z * option Z)).

Lemma owners_query_event (event_id : Z) :
  maintains (owners_are o) (query_event_by_id event_id).
Proof. intros s Hs. exact Hs. Qed.

Lemma owners_setattr (event : Event) (a : Assignment) :
  maintains (owners_are o) (setattr event a).
Proof.
  intros s [Hw Hst]. unfold setattr.
  cbn [log store working commit_script setattr_script identity trace].
  assert (Ha : owners (assign_in (Event_id event) a (working s)) = o).
  { unfold owners, assign_in. cbn [events]. now rewrite owners_update_first. }
  destruct (setattr_script s) as [|[e|] rest]; cbn; split; auto.
Qed.

Lemma owners_rollback : maintains (owners_are o) session_rollback.
Proof. intros s [Hw Hst]. split; exact Hst. Qed.

Lemma owners_commit : maintains (owners_are o) session_commit.
Proof.
  intros s [Hw Hst]. unfold session_commit.
  cbn [log store working commit_script setattr_script identity trace].
  destruct (commit_script s) as [|[e|] rest]; cbn; split; auto.
Qed.

Lemma owners_delete_event_tags (event_id : Z) :
  maintains (owners_are o) (delete_event_tags event_id).
Proof. intros s Hs. exact Hs. Qed.

Lemma owners_add_tag_rows (event_id : Z) (tags : list Z) :
  maintains (owners_are o) (session_add_all (map (NewEventTag event_id) tags)).
Proof.
  intros s [Hw Hst]. rewrite session_add_all_tags. cbn [final_session].
  split; [exact Hw|exact Hst].
Qed.

Lemma owners_add_event_tags (event_id : Z) (tags : list Z) :
  maintains (owners_are o) (add_event_tags event_id tags).
Proof.
  unfold add_event_tags.
  apply maintains_bind; [apply owners_delete_event_tags|intros _].
  apply maintains_bind; [apply owners_add_tag_rows|intros _].
  apply owners_commit.
Qed.

Lemma owners_assign_all (event : Event) (l : list Assignment) :
  maintains (owners_are o) (assign_all event l).
Proof.
  induction l as [|a [|b rest] IH].
  - apply maintains_ret.
  - apply owners_setattr.
  - change (assign_all event (a :: b :: rest))
      with (setattr event a ;;; assign_all event (b :: rest)).
    apply maintains_bind; [apply owners_setattr|intros _; exact IH].
Qed.

End OwnerFrame.

(** The [try] block of [update_event] is this run of assignments. *)
Lemma update_event_unfold (event_id : Z) (title description : string)
    (tags : option (list Z))
    (start_date end_date : option date) (start_time end_time : option time)
    (description_html : option string) (club_id : option Z)
    (location cta_link : option string) :
  update_event event_id title description tags start_date end_date
               start_time end_time description_html club_id location cta_link
  = (event <- query_event_by_id event_id ;;
     match event with
     | None => ret false
     | Some event =>
         error <- try_except_else
           (assign_all event
              (update_event_assignments title description start_date end_date
                 start_time end_time description_html location cta_link))
           (fun _ => true)
           (session_rollback ;;; ret true)
           (fun _ => session_commit ;;; ret false) ;;
         (match tags with
          | Some (t :: rest) => add_event_tags event_id (t :: rest)
          | _ => ret tt
          end) ;;;
         ret (negb error)
     end).
Proof. reflexivity. Qed.

Lemma update_event_owners (o : list (Z * Z * option Z))
    (event_id : Z) (title description : string) (tags : option (list Z))
    (start_date end_date : option date) (start_time end_time : option time)
    (description_html : option string) (club_id : option Z)
    (location cta_link : option string) :
  maintains (owners_are o)
    (update_event event_id title description tags start_date end_date
                  start_time end_time description_html club_id location cta_link).
Proof.
  rewrite update_event_unfold.
  apply maintains_bind; [apply owners_query_event|intros [event|]];
    [|apply maintains_ret].
  apply maintains_bind.
  - apply maintains_try.
    + apply owners_assign_all.
    + apply maintains_bind; [apply owners_rollback|intros _; apply maintains_ret].
    + intros _. apply maintains_bind;
        [apply owners_commit|intros _; apply maintains_ret].
  - intros error. apply maintains_bind; [|intros _; apply maintains_ret].
    destruct tags as [[|t rest]|];
      [apply maintains_ret|apply owners_add_event_tags|apply maintains_ret].
Qed.

Lemma owners_event_by_id (event_id : Z) (l l' : list Event) (e : Event) :
  map owner_fields l' = map owner_fields l ->
  find (fun x => Event_id x =? event_id) l = Some e ->
  exists e', find (fun x => Event_id x =? event_id) l' = Some e'
             /\ owner_fields e' = owner_fields e.
Proof.
  revert l'. induction l as [|x l IH]; intros l' Hmap Hfind; [discriminate|].
  destruct l' as [|x' l']; [discriminate|].
  cbn [map] in Hmap.
  assert (Hx : owner_fields x' = owner_fields x) by congruence.
  assert (Hrest : map owner_fields l' = map owner_fields l) by congruence.
  assert (Hid : Event_id x' = Event_id x).
  { unfold owner_fields in Hx. congruence. }
  cbn [find] in *. rewrite Hid. destruct (Event_id x =? event_id).
  - injection Hfind as <-. exists x'. auto.
  - now apply IH.
Qed.

(** C9: a call of [update_event] on a session with nothing pending, whatever
    the arguments (the [club_id] argument included) and whether it returns or
    raises, leaves the id, user_id and club_id of every Event row as they
    were, in the committed store and in the open transaction; in particular
    the event with id event_id keeps its owning user and its club. *)
Theorem update_event_keeps_owner :
  forall (s : Session) (event_id : Z) (title description : string)
         (tags : option (list Z))
         (start_date end_date : option date) (start_time end_time : option time)
         (description_html : option string) (club_id : option Z)
         (location cta_link : option string),
    clean s ->
    let s' := final_session
                (update_event event_id title description tags start_date
                   end_date start_time end_time description_html club_id
                   location cta_link s) in
    owners (store s') = owners (store s)
    /\ owners (working s') = owners (store s)
    /\ (forall e, event_by_id event_id (store s) = Some e ->
          exists e', event_by_id event_id (store s') = Some e'
                     /\ Event_user_id e' = Event_user_id e
                     /\ Event_club_id e' = Event_club_id e).
Proof.
  intros s event_id title description tags start_date end_date start_time
         end_time description_html club_id location cta_link Hclean s'.
  assert (H : owners_are (owners (store s)) s').
  { apply update_event_owners. split; [now rewrite Hclean|reflexivity]. }
  destruct H as [Hw Hst]. split; [exact Hst|]. split; [exact Hw|].
  intros e He.
  destruct (owners_event_by_id event_id (events (store s)) (events (store s')) e
              Hst He) as (e' & He' & Ho).
  exists e'. split; [exact He'|]. unfold owner_fields in Ho.
  split; congruence.
Qed.

(** C9, an instance: passing club 99 for event 10 of [sample_db], whose club
    is 7, leaves the club at 7. *)
Lemma update_event_keeps_owner_witness :
  clean sample_session
  /\ owners (store (final_session
                      (update_event 10 "Gala" "Dinner" None None None None None
                         None (Some 99) None None sample_session)))
     = [(10, 1, Some 7)].
Proof.
  split; [reflexivity|].
  apply (update_event_keeps_owner sample_session 10 "Gala" "Dinner" None None
           None None None None (Some 99) None None).
  reflexivity.
Defined.

Lemma assign_all_no_fault (event : Event) (l : list Assignment) :
  forall s : Session,
    Forall (fun v => v = None) (setattr_script s) ->
    exists s',
      assign_all event l s = Ok tt s'
      /\ working s'
         = fold_left (fun w a => assign_in (Event_id event) a w) l (working s)
      /\ store s' = store s
      /\ commit_script s' = commit_script s
      /\ Forall (fun v => v = None) (setattr_script s').
Proof.
  induction l as [|a rest IH]; intros s Hsa.
  - exists s. cbn. auto.
  - destruct (no_fault_head _ Hsa) as [H0 H1].
    pose proof (setattr_no_fault event a s H0) as Hstep.
    destruct rest as [|b rest].
    + eexists. split; [exact Hstep|]. cbn. auto.
    + change (assign_all event (a :: b :: rest))
        with (setattr event a ;;; assign_all event (b :: rest)).
      unfold bind. rewrite Hstep.
      destruct (IH (mkSession (store s) (assign_in (Event_id event) a (working s))
                      (commit_script s) (tl (setattr_script s)) (identity s)
                      (trace s ++ [OpSetAttr (Event_id event) a])) H1)
        as (s' & Hrun & Hw & Hst & Hc & Hf).
      exists s'. split; [exact Hrun|]. cbn in *. auto.
Qed.

Lemma event_by_id_assignments (event_id : Z) (l : list Assignment) :
  forall w : DB,
    event_by_id event_id (fold_left (fun w a => assign_in event_id a w) l w)
    = option_map (fun e => fold_left (fun e a => apply_assignment a e) l e)
                 (event_by_id event_id w).
Proof.
  induction l as [|a l IH]; intros w; cbn [fold_left].
  - now destruct (event_by_id event_id w).
  - rewrite IH, event_by_id_assign_in.
    now destruct (event_by_id event_id w).
Qed.

Lemma update_event_assignments_result (e0 : Event) (title description : string)
    (start_date end_date : option date) (start_time end_time : option time)
    (description_html location cta_link : option string) :
  fold_left (fun e a => apply_assignment a e)
    (update_event_assignments title description start_date end_date start_time
       end_time description_html location cta_link) e0
  = mkEvent (Event_id e0) title (Event_user_id e0) description (Event_club_id e0)
            description_html location start_date end_date start_time end_time
            cta_link.
Proof. destruct e0. reflexivity. Qed.

(** A call of [update_event] that the store does not disturb: every covered
    field of the stored event takes the value passed for it. *)
Lemma update_event_run (s : Session) (event_id : Z) (title description : string)
    (tags : option (list Z))
    (start_date end_date : option date) (start_time end_time : option time)
    (description_html : option string) (club_id : option Z)
    (location cta_link : option string) (e0 : Event) :
  no_faults s ->
  event_by_id event_id (working s) = Some e0 ->
  exists s',
    update_event event_id title description tags start_date end_date start_time
                 end_time description_html club_id location cta_link s
    = Ok true s'
    /\ event_by_id event_id (store s')
       = Some (mkEvent (Event_id e0) title (Event_user_id e0) description
                       (Event_club_id e0) description_html location
                       start_date end_date start_time end_time cta_link)
    /\ working s' = store s'.
Proof.
  intros [Hc Hsa] He.
  assert (Hid : Event_id e0 = event_id).
  { apply find_some in He. destruct He as [_ He]. now apply Z.eqb_eq in He. }
  rewrite update_event_unfold.
  unfold bind at 1. unfold query_event_by_id. rewrite He.
  unfold bind at 1. unfold try_except_else.
  destruct (assign_all_no_fault e0
              (update_event_assignments title description start_date end_date
                 start_time end_time description_html location cta_link)
              (log (OpQueryEventById event_id) s) Hsa)
    as (s1 & Hrun & Hw1 & Hst1 & Hc1 & Hf1).
  rewrite Hrun. unfold bind at 1.
  assert (Hc0 : hd None (commit_script s1) = None).
  { rewrite Hc1. cbn. now apply no_fault_head. }
  rewrite session_commit_no_fault by exact Hc0.
  cbn [ret].
  set (s2 := mkSession (working s1) (working s1) (tl (commit_script s1))
                       (setattr_script s1) (identity s1) (trace s1 ++ [OpCommit])).
  assert (Hev : event_by_id event_id (working s1)
                = Some (mkEvent (Event_id e0) title (Event_user_id e0) description
                          (Event_club_id e0) description_html location
                          start_date end_date start_time end_time cta_link)).
  { rewrite Hw1, Hid, event_by_id_assignments. cbn [log working]. rewrite He.
    cbn [option_map]. rewrite update_event_assignments_result.
    now rewrite Hid. }
  unfold bind.
  destruct tags as [[|t rest]|].
  - exists s2. cbn. auto.
  - destruct (add_event_tags_returns event_id (t :: rest) s2) as (s3 & Hrun3).
    { cbn. rewrite Hc1. cbn.
      apply no_fault_head. now apply no_fault_head. }
    rewrite Hrun3. exists s3. split; [reflexivity|].
    destruct (add_event_tags_ok _ _ _ _ Hrun3) as (_ & _ & _ & Hevs & Hws & _).
    unfold event_by_id in *. rewrite Hevs. cbn [s2 working]. auto.
  - exists s2. cbn. auto.
Qed.

(** C10: on a session whose writes the store accepts, [update_event] on an
    existing event returns true and leaves every field it covers at the value
    passed for it, with no test for None: title and description, and
    description_html, location, start_date, end_date, start_time, end_time and
    cta_link.  An omitted optional argument is None, so the stored field
    becomes None; a call that gives only the title and the description clears
    all seven optional fields, whatever they held.  The id, the owning user
    and the club stay as they were. *)
Theorem update_event_overwrites :
  forall (s : Session) (event_id : Z) (title description : string)
         (tags : option (list Z))
         (start_date end_date : option date) (start_time end_time : option time)
         (description_html : option string) (club_id : option Z)
         (location cta_link : option string) (e0 : Event),
    no_faults s ->
    event_by_id event_id (working s) = Some e0 ->
    (exists s',
       update_event event_id title description tags start_date end_date
                    start_time end_time description_html club_id location
                    cta_link s = Ok true s'
       /\ event_by_id event_id (store s')
          = Some (mkEvent (Event_id e0) title (Event_user_id e0) description
                          (Event_club_id e0) description_html location
                          start_date end_date start_time end_time cta_link))
    /\ (exists s' e',
          update_event event_id title description None None None None None
                       None None None None s = Ok true s'
          /\ event_by_id event_id (store s') = Some e'
          /\ Event_title e' = title /\ Event_description e' = description
          /\ Event_description_html e' = None /\ Event_location e' = None
          /\ Event_start_date e' = None /\ Event_end_date e' = None
          /\ Event_start_time e' = None /\ Event_end_time e' = None
          /\ Event_cta_link e' = None).
Proof.
  intros s event_id title description tags start_date end_date start_time
         end_time description_html club_id location cta_link e0 Hnf He.
  split.
  - destruct (update_event_run s event_id title description tags start_date
                end_date start_time end_time description_html club_id location
                cta_link e0 Hnf He) as (s' & Hrun & Hev & _).
    eauto.
  - destruct (update_event_run s event_id title description None None None None
                None None None None None e0 Hnf He) as (s' & Hrun & Hev & _).
    eexists s', _. split; [exact Hrun|]. split; [exact Hev|].
    cbn. auto 12.
Qed.

(** C10, an instance: event 10 of [sample_db] has a start date; updating only
    the title and the description clears it. *)
Lemma update_event_overwrites_witness :
  no_faults sample_session
  /\ event_by_id 10 (working sample_session) = Some party
  /\ Event_start_date party = Some (mkDate 2024 2 29)
  /\ option_map Event_start_date
       (event_by_id 10
          (store (final_session
                    (update_event 10 "Gala" "Dinner" None None None None None
                       None None None None sample_session))))
     = Some None.
Proof.
  assert (Hnf : no_faults sample_session) by (split; constructor).
  split; [exact Hnf|]. split; [reflexivity|]. split; [reflexivity|].
  destruct (update_event_overwrites sample_session 10 "Gala" "Dinner" None None
              None None None None None None None party Hnf eq_refl)
    as [(s' & Hrun & Hev) _].
  rewrite Hrun. cbn [final_session]. rewrite Hev. reflexivity.
Defined.

(* ================================================================== *)
(** ** Helpers of [db_helpers.py] *)

Lemma check_object_params_fold {V} (d : dict V) (req : list string) (res : bool) :
  fold_left (fun res param => if negb (dict_has param d) then false else res)
            req res
  = res && forallb (fun param => dict_has param d) req.
Proof.
  revert res. induction req as [|p req IH]; intros res; cbn.
  - now rewrite andb_true_r.
  - rewrite IH. destruct (dict_has p d); cbn; [reflexivity|].
    now rewrite andb_false_r.
Qed.

(** X1: [check_object_params] returns True exactly when every required key is
    a key of the dict; a missing key seen early is not forgotten when later
    keys are present, and an empty requirement list gives True. *)
Theorem check_object_params_spec :
  forall (V : Type) (target_dict : dict V) (req_params : list string),
    (check_object_params target_dict req_params = true
     <-> forall param, In param req_params -> dict_has param target_dict = true)
    /\ check_object_params target_dict [] = true
    /\ (forall before param after,
          req_params = before ++ param :: after ->
          dict_has param target_dict = false ->
          check_object_params target_dict req_params = false).
Proof.
  intros V d req. unfold check_object_params.
  split; [|split; [reflexivity|]].
  - rewrite check_object_params_fold. cbn [andb]. rewrite forallb_forall. tauto.
  - intros before p after -> Hp. rewrite check_object_params_fold. cbn [andb].
    rewrite forallb_app. cbn. rewrite Hp. now rewrite andb_false_r.
Qed.

Lemma dict_has_get {V} (k : string) (d : dict V) :
  dict_has k d = true <-> exists v, dict_get k d = Some v.
Proof.
  unfold dict_has, dict_get. split.
  - intros H. apply existsb_exists in H. destruct H as (item & Hin & Hk).
    destruct (find (is_key k) d) as [item'|] eqn:Hf; [cbn; eauto|].
    eapply find_none in Hf; [|exact Hin]. congruence.
  - intros [v Hv]. destruct (find (is_key k) d) as [item|] eqn:Hf; [|discriminate].
    apply find_some in Hf. apply existsb_exists. exists item. exact Hf.
Qed.

Lemma dict_get_removed {V} (k : string) (d : dict V) :
  dict_get k (filter (fun item => negb (is_key k item)) d) = None.
Proof.
  unfold dict_get. induction d as [|item d IH]; cbn; [reflexivity|].
  destruct (is_key k item) eqn:E; cbn; [exact IH|]. now rewrite E.
Qed.

Lemma dict_get_other {V} (k k' : string) (d : dict V) :
  k' <> k ->
  dict_get k' (filter (fun item => negb (is_key k item)) d) = dict_get k' d.
Proof.
  intros Hne. unfold dict_get. induction d as [|item d IH]; cbn; [reflexivity|].
  destruct (is_key k item) eqn:E; cbn.
  - assert (E' : is_key k' item = false).
    { unfold is_key in *. apply String.eqb_eq in E. apply String.eqb_neq. congruence. }
    now rewrite E'.
  - destruct (is_key k' item); [reflexivity|exact IH].
Qed.

Lemma convert_entries_spec {V} (l : list (dict V)) :
  forall acc,
    (Forall (fun entry => dict_has "_sa_instance_state" entry = true) l ->
     exists res, convert_entries l acc = inr (acc ++ res)
                 /\ Forall2 converted_from l res)
    /\ (forall before entry after,
          l = before ++ entry :: after ->
          dict_has "_sa_instance_state" entry = false ->
          Forall (fun entry => dict_has "_sa_instance_state" entry = true) before ->
          convert_entries l acc = inl (OtherError "KeyError")).
Proof.
  induction l as [|entry l IH]; intros acc.
  - split.
    + intros _. exists []. cbn. rewrite app_nil_r. auto.
    + intros [|x before] entry after H; discriminate.
  - split.
    + intros Hall. inversion Hall as [|x l' Hx Hl]; subst.
      cbn [convert_entries]. unfold dict_pop. rewrite Hx.
      destruct (proj1 (IH (acc ++ [filter (fun item =>
                  negb (is_key "_sa_instance_state" item)) entry])) Hl)
        as (res & Hrun & Hres).
      exists (filter (fun item => negb (is_key "_sa_instance_state" item)) entry
              :: res).
      split; [rewrite <- app_assoc in Hrun; exact Hrun|].
      constructor; [|exact Hres]. split.
      * apply dict_get_removed.
      * intros k Hk. now apply dict_get_other.
    + intros before e after Hl He Hbefore.
      destruct before as [|x before]; cbn in Hl; injection Hl as -> ->.
      * cbn [convert_entries]. unfold dict_pop. now rewrite He.
      * inversion Hbefore as [|x' l' Hx Hb]; subst.
        cbn [convert_entries]. unfold dict_pop. rewrite Hx.
        eapply (proj2 (IH _)); eauto.
Qed.

(** X2: [list_dict_convert].  With [remove_sql_ref] set, the call returns
    when every entry carries the key '_sa_instance_state', and then the result
    has one dict per entry, in order, without that key and with every other
    key at its value; the first entry that lacks the key makes the call raise
    KeyError.  With [remove_sql_ref] unset, the entries' dicts are returned as
    they are, and no KeyError can occur. *)
Theorem list_dict_convert_spec :
  forall (V : Type) (query_res_lst : list (dict V)),
    (Forall (fun entry => dict_has "_sa_instance_state" entry = true)
            query_res_lst ->
     exists res, list_dict_convert query_res_lst true = inr res
                 /\ Forall2 converted_from query_res_lst res
                 /\ List.length res = List.length query_res_lst)
    /\ (forall before entry after,
          query_res_lst = before ++ entry :: after ->
          dict_has "_sa_instance_state" entry = false ->
          Forall (fun entry => dict_has "_sa_instance_state" entry = true) before ->
          list_dict_convert query_res_lst true = inl (OtherError "KeyError"))
    /\ list_dict_convert query_res_lst false = inr query_res_lst.
Proof.
  intros V l. unfold list_dict_convert. split; [|split].
  - intros Hall. destruct (proj1 (convert_entries_spec l []) Hall) as (res & Hrun & Hres).
    exists res. split; [exact Hrun|]. split; [exact Hres|].
    symmetry. eapply Forall2_length; eauto.
  - intros before entry after Hl He Hb.
    eapply (proj2 (convert_entries_spec l [])); eauto.
  - now rewrite map_id.
Qed.

(* ================================================================== *)
(** ** Events of a day, tags and senders of a batch *)

Lemma collect_map {A B} (f : A -> B) (xs : list A) : collect f xs = map f xs.
Proof.
  unfold collect.
  assert (H : forall acc, fold_left (fun res x => res ++ [f x]) xs acc
                          = acc ++ map f xs).
  { induction xs as [|x xs IH]; intros acc; cbn.
    - now rewrite app_nil_r.
    - now rewrite IH, <- app_assoc. }
  apply (H []).
Qed.

Lemma date_le_antisym (a b : date) : date_le a b -> date_le b a -> a = b.
Proof.
  destruct a as [y1 m1 d1], b as [y2 m2 d2]. unfold date_le. cbn.
  intros H1 H2. assert (y1 = y2 /\ m1 = m2 /\ d1 = d2) as (-> & -> & ->) by lia.
  reflexivity.
Qed.

Lemma date_le_refl (a : date) : date_le a a.
Proof. unfold date_le. lia. Qed.

Lemma start_date_between_same_day (d : date) (e : Event) :
  start_date_between d d e = true <-> Event_start_date e = Some d.
Proof.
  unfold start_date_between. destruct (Event_start_date e) as [x|].
  - rewrite andb_true_iff, !date_leb_le. split.
    + intros [H1 H2]. f_equal. now apply date_le_antisym.
    + intros H. injection H as ->. split; apply date_le_refl.
  - split; discriminate.
Qed.

Lemma StronglySorted_weaken {A} (R R' : A -> A -> Prop) (l : list A) :
  (forall a b, In a l -> In b l -> R a b -> R' a b) ->
  StronglySorted R l -> StronglySorted R' l.
Proof.
  intros Himp Hs. induction Hs as [|x l Hs IH Hall]; constructor.
  - apply IH. intros a b Ha Hb. apply Himp; now right.
  - rewrite Forall_forall in *. intros y Hy.
    apply Himp; [now left|now right|now apply Hall].
Qed.

Lemma event_le_same_day (d : date) (a b : Event) :
  Event_start_date a = Some d -> Event_start_date b = Some d ->
  event_le a b -> time_title_le a b.
Proof.
  unfold event_le, event_leb, event_compare, time_title_le, pair_compare.
  intros -> ->. cbn [option_compare fst snd].
  rewrite (cmp_refl date_compare). cbn [lex].
  destruct (lex _ _); congruence.
Qed.

(** X3: [get_events_by_date] returns exactly the events whose start_date is
    the given day (events without a start date are left out), ordered by
    start_time and then title; [include_description] changes neither the rows
    nor their order, and the query writes nothing. *)
Theorem get_events_by_date_spec :
  forall (s : Session) (from_date : date) (include_description : bool),
  exists evs s',
    get_events_by_date from_date include_description s = Ok evs s'
    /\ Permutation evs
         (filter (start_date_between from_date from_date) (events (working s)))
    /\ (forall e, In e evs <->
                  In e (events (working s))
                  /\ Event_start_date e = Some from_date)
    /\ StronglySorted time_title_le evs
    /\ get_events_by_date from_date (negb include_description) s = Ok evs s'
    /\ working s' = working s /\ store s' = store s.
Proof.
  intros s d flag.
  assert (Hrun : forall b, get_events_by_date d b s = query_events_between d d s)
    by (intros []; reflexivity).
  rewrite !Hrun. unfold query_events_between.
  eexists _, _. split; [reflexivity|].
  assert (Hmem : forall e,
            In e (order_events (filter (start_date_between d d) (events (working s))))
            <-> In e (events (working s)) /\ Event_start_date e = Some d).
  { intros e. rewrite <- start_date_between_same_day, <- filter_In. split.
    - apply Permutation_in, order_events_perm.
    - apply Permutation_in, Permutation_sym, order_events_perm. }
  split; [apply order_events_perm|]. split; [exact Hmem|].
  split; [|cbn; auto].
  eapply StronglySorted_weaken; [|apply order_events_sorted].
  intros a b Ha Hb. apply Hmem in Ha, Hb.
  apply (event_le_same_day d); tauto.
Qed.




(** The three ways a call of [add_user] returns. *)
Lemma add_user_returns_cases (email : string) (user_privilege : Z)
    (s s1 : Session) (r : option Z) :
  add_user email user_privilege s = Ok r s1 ->
  (exists u, user_by_email email (working s) = Some u
             /\ r = Some (User_id u)
             /\ working s1 = working s /\ store s1 = store s)
  \/ (user_by_email email (working s) = None
      /\ r = Some (next_id (map User_id (users (working s))))
      /\ users (working s1)
         = users (working s)
           ++ [mkUser (next_id (map User_id (users (working s)))) email
                      user_privilege]
      /\ store s1 = working s1)
  \/ (user_by_email email (working s) = None
      /\ r = None /\ working s1 = store s /\ store s1 = store s).
Proof.
  intros Hrun.
  destruct (user_by_email email (working s)) as [u|] eqn:Hu.
  - left. rewrite (add_user_existing email user_privilege s u Hu) in Hrun.
    injection Hrun as <- <-. exists u. cbn. auto.
  - right.
    assert (Hcreated : hd None (commit_script s) = None ->
              r = Some (next_id (map User_id (users (working s))))
              /\ users (working s1)
                 = users (working s)
                   ++ [mkUser (next_id (map User_id (users (working s)))) email
                              user_privilege]
              /\ store s1 = working s1).
    { intros Hok.
      destruct (add_user_created email user_privilege s Hu Hok)
        as (s' & Hc & Hus & _ & _ & _ & Hst & _).
      rewrite Hc in Hrun. injection Hrun as <- <-. auto. }
    destruct (commit_script s) as [|[e|] rest] eqn:Hs.
    + left. split; [reflexivity|]. now apply Hcreated.
    + destruct (is_IntegrityError e) eqn:He.
      * destruct e; try discriminate.
        destruct (add_user_conflict email user_privilege s rest Hu Hs)
          as (s' & Hc & Hw & Hst).
        rewrite Hc in Hrun. injection Hrun as <- <-. right. auto.
      * destruct (add_user_error email user_privilege s e rest Hu Hs He)
          as (s' & Hc).
        rewrite Hc in Hrun. discriminate.
    + left. split; [reflexivity|]. now apply Hcreated.
Qed.

Lemma find_none_not_in_emails (email : string) (l : list User) :
  find (fun u => String.eqb (User_email u) email) l = None ->
  ~ In email (map User_email l).
Proof.
  intros Hf Hin. apply in_map_iff in Hin. destruct Hin as (u & Hu & Hin).
  eapply find_none in Hf; [|exact Hin]. cbn in Hf.
  rewrite Hu, String.eqb_refl in Hf. discriminate.
Qed.

Lemma NoDup_snoc {A} (l : list A) (x : A) :
  NoDup l -> ~ In x l -> NoDup (l ++ [x]).
Proof.
  intros Hl Hx. apply NoDup_app; [exact Hl|repeat constructor; auto|].
  intros a Ha [<-|[]]. contradiction.
Qed.

(** Unique emails and ids survive a call of [add_user] that returns. *)
Lemma add_user_unique_after (s s1 : Session) (email : string)
    (user_privilege : Z) (r : option Z) :
  clean s ->
  NoDup (map User_email (users (working s))) ->
  NoDup (map User_id (users (working s))) ->
  add_user email user_privilege s = Ok r s1 ->
  NoDup (map User_email (users (working s1)))
  /\ NoDup (map User_id (users (working s1)))
  /\ clean s1.
Proof.
  intros Hclean Hemails Hids Hrun.
  destruct (add_user_returns_cases email user_privilege s s1 r Hrun)
    as [(u & _ & _ & Hw & Hst)|[(Hu & _ & Hus & Hst)|(_ & _ & Hw & Hst)]].
  - unfold clean in *. rewrite Hw, Hst. auto.
  - rewrite Hus, !map_app. cbn [map User_email User_id].
    split; [|split; [|unfold clean; auto]].
    + apply NoDup_snoc; [exact Hemails|]. now apply find_none_not_in_emails.
    + apply NoDup_snoc; [exact Hids|]. apply next_id_fresh.
  - unfold clean in *. rewrite Hw, Hst, <- Hclean. auto.
Qed.

(** X5: [add_user] keeps the keys of the users table unique.  On a session
    with nothing pending whose users have pairwise distinct emails and
    pairwise distinct ids, every call that returns leaves emails and ids
    pairwise distinct, in the open transaction and in the committed store, and
    leaves nothing pending. *)
Theorem add_user_keeps_keys_unique :
  forall (s s1 : Session) (email : string) (user_privilege : Z) (r : option Z),
    clean s ->
    NoDup (map User_email (users (working s))) ->
    NoDup (map User_id (users (working s))) ->
    add_user email user_privilege s = Ok r s1 ->
    NoDup (map User_email (users (working s1)))
    /\ NoDup (map User_id (users (working s1)))
    /\ NoDup (map User_email (users (store s1)))
    /\ NoDup (map User_id (users (store s1)))
    /\ clean s1.
Proof.
  intros s s1 email p r Hclean Hemails Hids Hrun.
  destruct (add_user_unique_after s s1 email p r Hclean Hemails Hids Hrun)
    as (He & Hi & Hc).
  unfold clean in Hc. rewrite <- Hc. auto.
Qed.

(** X5, an instance: a new email on [sample_db]. *)
Lemma add_user_keeps_keys_unique_witness :
  clean sample_session
  /\ NoDup (map User_email (users (working sample_session)))
  /\ NoDup (map User_id (users (working sample_session)))
  /\ NoDup (map User_id
              (users (working (final_session
                                 (add_user "carol@mit.edu" 0 sample_session))))).
Proof.
  assert (He : NoDup (map User_email (users (working sample_session)))).
  { cbn. repeat constructor; cbn; intros H;
      repeat (destruct H as [H|H]; [discriminate|]); exact H. }
  assert (Hi : NoDup (map User_id (users (working sample_session)))).
  { cbn. repeat constructor; cbn; intros H;
      repeat (destruct H as [H|H]; [discriminate|]); exact H. }
  split; [reflexivity|]. split; [exact He|]. split; [exact Hi|].
  apply (add_user_keeps_keys_unique sample_session
           (final_session (add_user "carol@mit.edu" 0 sample_session))
           "carol@mit.edu" 0 (Some 4) eq_refl He Hi eq_refl).
Defined.

Lemma find_by_unique_id (l : list User) (u : User) :
  NoDup (map User_id l) -> In u l ->
  find (fun x => User_id x =? User_id u) l = Some u.
Proof.
  induction l as [|x l IH]; intros Hnd Hin; [contradiction|].
  cbn in Hnd. inversion Hnd as [|i ids Hnotin Hnd']; subst.
  cbn. destruct Hin as [->|Hin].
  - now rewrite Z.eqb_refl.
  - destruct (User_id x =? User_id u) eqn:E.
    + apply Z.eqb_eq in E. exfalso. apply Hnotin. rewrite E. now apply in_map.
    + now apply IH.
Qed.

(** X6: for events loaded from the store, [get_event_user_emails] yields one
    string per event, in order: the email of the user the event's user_id
    refers to, and "unknown_user" when no user has that id.  With pairwise
    distinct user ids, the id that [add_user(email)] returns leads back to
    that email: a stored event submitted under that id is reported with
    [email]. *)
Theorem get_event_user_emails_after_add_user :
  forall (s s1 : Session) (email : string) (user_privilege id : Z)
         (evs : list Event),
    clean s ->
    NoDup (map User_email (users (working s))) ->
    NoDup (map User_id (users (working s))) ->
    add_user email user_privilege s = Ok (Some id) s1 ->
    Forall (fun e => In e (events (working s1))) evs ->
    exists res,
      get_event_user_emails evs s1 = Ok res s1
      /\ List.length res = List.length evs
      /\ (forall i e, nth_error evs i = Some e ->
            In e (events (working s1))
            /\ (Event_user_id e = id -> nth_error res i = Some email)
            /\ (user_by_id (Event_user_id e) (working s1) = None ->
                nth_error res i = Some "unknown_user")
            /\ (forall u, user_by_id (Event_user_id e) (working s1) = Some u ->
                          nth_error res i = Some (User_email u))).
Proof.
  intros s s1 email p id evs Hclean Hemails Hids Hrun Hstored.
  destruct (add_user_unique_after s s1 email p (Some id) Hclean Hemails
              Hids Hrun) as (_ & Hids1 & _).
  destruct (add_user_some_inv email p s s1 id Hrun) as ([u [Hu Hid]] & _ & _).
  assert (Hback : user_by_id id (working s1) = Some u).
  { unfold user_by_email in Hu. apply find_some in Hu. destruct Hu as [Hin _].
    unfold user_by_id. rewrite <- Hid. now apply find_by_unique_id. }
  assert (Hemail : User_email u = email).
  { unfold user_by_email in Hu. apply find_some in Hu. destruct Hu as [_ He].
    now apply String.eqb_eq in He. }
  unfold get_event_user_emails. rewrite collect_map.
  eexists. split; [reflexivity|]. split; [apply length_map|].
  intros i e Hi. rewrite nth_error_map, Hi. cbn [option_map]. unfold Event_user.
  split; [|split; [|split]].
  - rewrite Forall_forall in Hstored. apply Hstored.
    eapply nth_error_In; eauto.
  - intros ->. now rewrite Hback, Hemail.
  - intros ->. reflexivity.
  - intros u' ->. reflexivity.
Qed.

(** X6, an instance: the store of [batch_session] holds an event submitted by
    alice, user 1, and one submitted by user 99, who is not in the users
    table.  [add_user] finds alice's id 1, and the two stored events are
    reported with her email and with "unknown_user". *)
Lemma get_event_user_emails_after_add_user_witness :
  clean batch_session
  /\ add_user "alice@mit.edu" 0 batch_session
     = Ok (Some 1) (final_session (add_user "alice@mit.edu" 0 batch_session))
  /\ Forall (fun e => In e (events (working
                (final_session (add_user "alice@mit.edu" 0 batch_session)))))
            [party; hike]
  /\ returned
       (get_event_user_emails [party; hike]
          (final_session (add_user "alice@mit.edu" 0 batch_session)))
     = Some ["alice@mit.edu"; "unknown_user"].
Proof.
  assert (He : NoDup (map User_email (users (working batch_session)))).
  { cbn. repeat constructor; cbn; intros H;
      repeat (destruct H as [H|H]; [discriminate|]); exact H. }
  assert (Hi : NoDup (map User_id (users (working batch_session)))).
  { cbn. repeat constructor; cbn; intros H;
      repeat (destruct H as [H|H]; [discriminate|]); exact H. }
  assert (Hs : Forall (fun e => In e (events (working
                  (final_session (add_user "alice@mit.edu" 0 batch_session)))))
                 [party; hike]).
  { constructor; [left; reflexivity|].
    constructor; [right; left; reflexivity|constructor]. }
  split; [reflexivity|]. split; [reflexivity|]. split; [exact Hs|].
  destruct (get_event_user_emails_after_add_user batch_session
              (final_session (add_user "alice@mit.edu" 0 batch_session))
              "alice@mit.edu" 0 1 [party; hike] eq_refl He Hi eq_refl Hs)
    as (res & Hrun & _ & Hres).
  rewrite Hrun. cbn [returned]. f_equal.
  destruct (Hres 0%nat party eq_refl) as (_ & H0 & _).
  destruct (Hres 1%nat hike eq_refl) as (_ & _ & H1 & _).
  specialize (H0 eq_refl). specialize (H1 eq_refl).
  destruct res as [|a [|b [|c res]]]; cbn in *; try discriminate.
  congruence.
Defined.

(* ================================================================== *)
(** ** The transactional scope *)

(** X7: [session_scope] on every path leaves nothing pending in the session.
    When the block returns and the store accepts the commit, the block's value
    is returned and everything the block wrote is committed.  When the block
    raises, the same exception is raised again after a rollback, no commit is
    attempted, and the store holds only what the block itself had committed.
    When the block returns but the commit is rejected, the store's error is
    raised after a rollback and nothing the block left pending is stored. *)
Theorem session_scope_spec :
  forall (A : Type) (body : M A) (s : Session),
    let r := session_scope body s in
    clean (final_session r)
    /\ (forall a s1, body s = Ok a s1 ->
          hd None (commit_script s1) = None ->
          r = Ok a (final_session r)
          /\ store (final_session r) = working s1
          /\ trace (final_session r) = trace s1 ++ [OpCommit])
    /\ (forall a s1 e rest, body s = Ok a s1 ->
          commit_script s1 = Some e :: rest ->
          r = Raise e (final_session r)
          /\ store (final_session r) = store s1
          /\ trace (final_session r) = trace s1 ++ [OpCommit; OpRollback])
    /\ (forall e s1, body s = Raise e s1 ->
          r = Raise e (final_session r)
          /\ store (final_session r) = store s1
          /\ commit_script (final_session r) = commit_script s1
          /\ trace (final_session r) = trace s1 ++ [OpRollback]).
Proof.
  intros A body s r. subst r. unfold session_scope, bind.
  destruct (body s) as [a s1|e s1] eqn:Hbody.
  - unfold session_commit.
    cbn [log store working commit_script setattr_script identity trace].
    destruct (commit_script s1) as [|[e|] rest] eqn:Hs; cbn;
      (split; [reflexivity|]);
      (split; [intros a' s' H Hhd; injection H as <- <-; rewrite ?Hs in Hhd;
               try discriminate; auto|]);
      (split; [intros a' s' e' rest' H Hc; injection H as <- <-;
               rewrite Hs in Hc; try discriminate|intros e' s' H; discriminate]).
    injection Hc as <- <-. rewrite <- app_assoc. auto.
  - cbn. split; [reflexivity|].
    split; [intros a s' H; discriminate|].
    split; [intros a s' e' rest H; discriminate|].
    intros e' s' H. injection H as <- <-. auto.
Qed.

(* ================================================================== *)
(** ** What [add_to_db] leaves in the store *)

Lemma insert_row_keeps (o o' : Model) (db : DB) :
  row_present o db -> row_present o (fst (insert_row o' db)).
Proof.
  destruct o, o'; cbn; try tauto;
    try (intros [id H]; exists id); try intros H; apply in_or_app; auto.
Qed.

Lemma insert_row_adds (o : Model) (db : DB) :
  row_present o (fst (insert_row o db)).
Proof.
  destruct o; cbn; [eexists|idtac|idtac]; apply in_or_app; right; left; reflexivity.
Qed.

Lemma inserted_rows_present (objs : list Model) :
  forall (db : DB) (o : Model),
    (In o objs \/ row_present o db) ->
    row_present o (fold_left (fun db o => fst (insert_row o db)) objs db).
Proof.
  induction objs as [|x objs IH]; intros db o H; cbn.
  - destruct H as [[]|H]. exact H.
  - apply IH. destruct H as [[->|H]|H]; auto.
    + right. apply insert_row_adds.
    + right. now apply insert_row_keeps.
Qed.

(** The state a run of the loop leaves, by its result. *)
Lemma add_to_db_loop_state (obj : Model) (others : option (list Model))
    (rollbackfunc : option (DB -> DB)) :
  forall (fuel : nat) (retry : Z) (s : Session) (r : Result bool),
    add_to_db_loop fuel obj others rollbackfunc false retry s = Some r ->
    match r with
    | Ok true s' =>
        store s' = working s'
        /\ (working s' = inserted obj others (working s)
            \/ exists f, rollbackfunc = Some f
                         /\ working s' = inserted obj others (f (store s)))
    | Ok false s' => store s' = store s
    | Raise e s' => store s' = store s
    end.
Proof.
  induction fuel as [|fuel IH]; intros retry s r Hrun.
  - cbn in Hrun. destruct (retry >? 0); [discriminate|].
    injection Hrun as <-. reflexivity.
  - cbn [add_to_db_loop negb andb] in Hrun.
    destruct (retry >? 0); [|injection Hrun as <-; reflexivity].
    destruct (leading_conflicts (commit_script s)) as [|l] eqn:Hlead.
    + destruct (leading_conflicts_zero _ Hlead) as [Hok|(e & rest & Hs & He)].
      * destruct (attempt_success obj others rollbackfunc retry s Hok)
          as (s1 & Ha & Hw & Hst & _).
        rewrite Ha in Hrun. cbn [fst snd] in Hrun.
        assert (Hr : r = Ok true s1) by (destruct fuel; cbn in Hrun; congruence).
        subst r. split; [exact Hst|]. left. exact Hw.
      * destruct (attempt_error obj others rollbackfunc retry s e rest Hs He)
          as (s1 & Ha & Hst & _).
        rewrite Ha in Hrun. injection Hrun as <-. exact Hst.
    + destruct (leading_conflicts_succ _ _ Hlead) as (rest & Hs & _).
      destruct (attempt_conflict obj others rollbackfunc retry s rest Hs)
        as (s1 & Ha & Hst & Hw & _).
      rewrite Ha in Hrun. cbn [fst snd] in Hrun.
      destruct rollbackfunc as [f|].
      * specialize (IH _ _ _ Hrun). destruct r as [[|] s'|e s'].
        -- destruct IH as [Hc Hcase]. split; [exact Hc|]. right. exists f.
           split; [reflexivity|].
           destruct Hcase as [H|(f' & Hf & H)].
           ++ now rewrite H, Hw.
           ++ injection Hf as <-. now rewrite H, Hst.
        -- now rewrite IH.
        -- now rewrite IH.
      * assert (Hr : r = Ok false s1) by (destruct fuel; cbn in Hrun; congruence).
        subst r. exact Hst.
Qed.

(** X8: [add_to_db] is all or nothing.  When it returns True, the object and
    every one of [others] have their row in the committed store and nothing
    is left pending; when it returns False or raises, the committed store is
    what it was before the call. *)
Theorem add_to_db_all_or_nothing :
  forall (obj : Model) (others : option (list Model))
         (rollbackfunc : option (DB -> DB)) (s : Session),
    match add_to_db obj others rollbackfunc s with
    | Ok true s' =>
        clean s'
        /\ row_present obj (store s')
        /\ (forall o l, others = Some l -> In o l -> row_present o (store s'))
    | Ok false s' => store s' = store s
    | Raise e s' => store s' = store s
    end.
Proof.
  intros obj others rollbackfunc s.
  destruct (add_to_db_outcome obj others rollbackfunc s) as (r & Hloop & Hr & _).
  rewrite Hr. pose proof (add_to_db_loop_state _ _ _ _ _ _ _ Hloop) as Hstate.
  destruct r as [[|] s'|e s']; try exact Hstate.
  destruct Hstate as [Hst Hcase].
  assert (Hall : forall o, In o (added obj others) -> row_present o (store s')).
  { intros o Ho. rewrite Hst.
    destruct Hcase as [->|(f & _ & ->)]; apply inserted_rows_present; auto. }
  split; [unfold clean; now rewrite Hst|]. split.
  - apply Hall. unfold added. now left.
  - intros o l -> Ho. apply Hall. unfold added. now right.
Qed.

(* ================================================================== *)
(** ** More on the update functions *)

Lemma assign_all_fault (event : Event) (l : list Assignment) :
  forall (s : Session) (k : nat) (e : Exn) (rest : list (option Exn)),
    setattr_script s = repeat None k ++ Some e :: rest ->
    (k < List.length l)%nat ->
    exists s1,
      assign_all event l s = Raise e s1
      /\ store s1 = store s
      /\ commit_script s1 = commit_script s
      /\ exists ops, trace s1 = trace s ++ ops /\ count_commits ops = 0%nat.
Proof.
  induction l as [|a l IH]; intros s k e rest Hs Hk; [cbn in Hk; lia|].
  destruct k as [|k].
  - cbn in Hs.
    assert (Hstep : exists s1, setattr event a s = Raise e s1
                               /\ store s1 = store s
                               /\ commit_script s1 = commit_script s
                               /\ trace s1 = trace s ++ [OpSetAttr (Event_id event) a]).
    { unfold setattr.
      cbn [log store working commit_script setattr_script identity trace].
      rewrite Hs. eexists. split; [reflexivity|]. cbn. auto. }
    destruct Hstep as (s1 & Hrun & Hst & Hc & Htr).
    exists s1. split.
    + destruct l as [|b l]; [exact Hrun|].
      change (assign_all event (a :: b :: l))
        with (setattr event a ;;; assign_all event (b :: l)).
      unfold bind. now rewrite Hrun.
    + split; [exact Hst|]. split; [exact Hc|]. eexists. split; [exact Htr|reflexivity].
  - cbn in Hs, Hk.
    assert (H0 : hd None (setattr_script s) = None) by now rewrite Hs.
    pose proof (setattr_no_fault event a s H0) as Hstep.
    destruct l as [|b l]; [cbn in Hk; lia|].
    change (assign_all event (a :: b :: l))
      with (setattr event a ;;; assign_all event (b :: l)).
    unfold bind. rewrite Hstep.
    edestruct (IH (mkSession (store s) (assign_in (Event_id event) a (working s))
                     (commit_script s) (tl (setattr_script s)) (identity s)
                     (trace s ++ [OpSetAttr (Event_id event) a])) k e rest)
      as (s1 & Hrun & Hst & Hc & ops & Htr & Hcount).
    + cbn. now rewrite Hs.
    + cbn in *. lia.
    + exists s1. split; [exact Hrun|]. cbn in *. split; [exact Hst|].
      split; [exact Hc|]. exists (OpSetAttr (Event_id event) a :: ops).
      split; [now rewrite Htr, <- app_assoc|exact Hcount].
Qed.

Lemma tags_of_replaced (event_id : Z) (tags : list Z) (db db' : DB) :
  event_tags db' = other_tag_rows event_id db ++ map (mkEventTag event_id) tags ->
  tags_of event_id db' = tags.
Proof.
  intros H. unfold tags_of. rewrite H, filter_app. unfold other_tag_rows.
  rewrite filter_after_delete, filter_own_rows. cbn [app].
  rewrite map_map. cbn. apply map_id.
Qed.

(** X9: when one of the nine attribute assignments of [update_event] raises,
    the field changes are rolled back and False is returned, but a non-empty
    [event_tags] is written all the same: the Event rows in the store are what
    they were, while the event's tags are replaced by the supplied list.
    Without tags the store and the session end as they started. *)
Theorem update_event_failed_assignment :
  forall (s : Session) (event_id : Z) (title description : string)
         (tags : option (list Z))
         (start_date end_date : option date) (start_time end_time : option time)
         (description_html : option string) (club_id : option Z)
         (location cta_link : option string)
         (e0 : Event) (k : nat) (e : Exn) (rest : list (option Exn)),
    clean s ->
    event_by_id event_id (working s) = Some e0 ->
    setattr_script s = repeat None k ++ Some e :: rest ->
    (k < 9)%nat ->
    (forall t ts, tags = Some (t :: ts) ->
       hd None (commit_script s) = None ->
       exists s',
         update_event event_id title description tags start_date end_date
                      start_time end_time description_html club_id location
                      cta_link s = Ok false s'
         /\ events (store s') = events (store s)
         /\ tags_of event_id (store s') = t :: ts)
    /\ (tags = None \/ tags = Some [] ->
        exists s',
          update_event event_id title description tags start_date end_date
                       start_time end_time description_html club_id location
                       cta_link s = Ok false s'
          /\ store s' = store s /\ working s' = store s
          /\ commit_script s' = commit_script s).
Proof.
  intros s event_id title description tags start_date end_date start_time
         end_time description_html club_id location cta_link e0 k e rest
         Hclean He Hs Hk.
  destruct (assign_all_fault e0
              (update_event_assignments title description start_date end_date
                 start_time end_time description_html location cta_link)
              (log (OpQueryEventById event_id) s) k e rest Hs Hk)
    as (s1 & Hrun & Hst & Hc & _).
  cbn [log store commit_script] in Hst, Hc.
  assert (Hhead : forall tg,
    update_event event_id title description tg start_date end_date start_time
                 end_time description_html club_id location cta_link s
    = ((match tg with
        | Some (t :: rest) => add_event_tags event_id (t :: rest)
        | _ => ret tt
        end) ;;; ret false) (log OpRollback (with_working (store s1) s1))).
  { intros tg. rewrite update_event_unfold.
    unfold bind at 1. unfold query_event_by_id. rewrite He.
    unfold bind at 1. unfold try_except_else. rewrite Hrun.
    reflexivity. }
  split.
  - intros t ts -> Hok. rewrite Hhead. unfold bind.
    destruct (add_event_tags_returns event_id (t :: ts)
                (log OpRollback (with_working (store s1) s1))) as (s' & Hrun').
    { cbn. now rewrite Hc. }
    rewrite Hrun'. exists s'. split; [reflexivity|].
    destruct (add_event_tags_ok _ _ _ _ Hrun') as (Htags & _ & _ & Hev & _).
    cbn [log with_working working] in Htags, Hev.
    split; [now rewrite Hev, Hst|].
    now apply (tags_of_replaced event_id (t :: ts) (store s1)).
  - intros Htg. rewrite Hhead.
    exists (log OpRollback (with_working (store s1) s1)).
    split; [destruct Htg as [->| ->]; reflexivity|]. cbn. auto.
Qed.

(** X9, an instance: on [sample_db] the third assignment of an update of
    event 10 raises; the title stays "Party" while the tags become [[9]]. *)
Lemma update_event_failed_assignment_witness :
  clean (open_session sample_db [] [None; None; Some ValueError])
  /\ event_by_id 10 (working (open_session sample_db [] [None; None; Some ValueError]))
     = Some party
  /\ (2 < 9)%nat
  /\ exists s',
       update_event 10 "Gala" "Dinner" (Some [9]) None None None None None None
                    None None
                    (open_session sample_db [] [None; None; Some ValueError])
       = Ok false s'
       /\ events (store s') = [party]
       /\ tags_of 10 (store s') = [9].
Proof.
  split; [reflexivity|]. split; [reflexivity|]. split; [lia|].
  destruct (update_event_failed_assignment
              (open_session sample_db [] [None; None; Some ValueError])
              10 "Gala" "Dinner" (Some [9]) None None None None None None None
              None party 2%nat ValueError [] eq_refl eq_refl eq_refl)
    as [Htags _]; [lia|].
  exact (Htags 9 [] eq_refl eq_refl).
Defined.

Section ViewFrame.
Context {X : Type} (proj : DB -> X) (x : X).
Hypothesis proj_assign : forall id a w, proj (assign_in id a w) = proj w.

Lemma view_setattr (event : Event) (a : Assignment) :
  maintains (view_is proj x) (setattr event a).
Proof.
  intros s [Hw Hst]. unfold setattr.
  cbn [log store working commit_script setattr_script identity trace].
  assert (Ha : proj (assign_in (Event_id event) a (working s)) = x)
    by now rewrite proj_assign.
  destruct (setattr_script s) as [|[e|] rest]; cbn; split; auto.
Qed.

Lemma view_assign_all (event : Event) (l : list Assignment) :
  maintains (view_is proj x) (assign_all event l).
Proof.
  induction l as [|a [|b rest] IH].
  - apply maintains_ret.
  - apply view_setattr.
  - change (assign_all event (a :: b :: rest))
      with (setattr event a ;;; assign_all event (b :: rest)).
    apply maintains_bind; [apply view_setattr|intros _; exact IH].
Qed.

Lemma view_rollback : maintains (view_is proj x) session_rollback.
Proof. intros s [Hw Hst]. split; exact Hst. Qed.

Lemma view_commit : maintains (view_is proj x) session_commit.
Proof.
  intros s [Hw Hst]. unfold session_commit.
  cbn [log store working commit_script setattr_script identity trace].
  destruct (commit_script s) as [|[e|] rest]; cbn; split; auto.
Qed.

(** The assignments, the rollback and the commit of an update. *)
Lemma view_update_block (event : Event) (l : list Assignment) :
  maintains (view_is proj x)
    (try_except_else (assign_all event l) (fun _ => true)
       (session_rollback ;;; ret true)
       (fun _ => session_commit ;;; ret false)).
Proof.
  apply maintains_try.
  - apply view_assign_all.
  - apply maintains_bind; [apply view_rollback|intros _; apply maintains_ret].
  - intros _. apply maintains_bind;
      [apply view_commit|intros _; apply maintains_ret].
Qed.

Hypothesis proj_tags : forall w l,
  proj (mkDB (users w) (memberships w) (events w) l) = proj w.

Lemma view_add_event_tags (event_id : Z) (tags : list Z) :
  maintains (view_is proj x) (add_event_tags event_id tags).
Proof.
  unfold add_event_tags.
  apply maintains_bind; [|intros _; apply maintains_bind; [|intros _; apply view_commit]].
  - intros s [Hw Hst]. unfold delete_event_tags, view_is.
    cbn [final_session log with_working working store].
    split; [now rewrite proj_tags|exact Hst].
  - intros s [Hw Hst]. rewrite session_add_all_tags. unfold view_is.
    cbn [final_session log with_working working store].
    split; [now rewrite proj_tags|exact Hst].
Qed.

End ViewFrame.

(** A table that assignments and tag rows do not touch is kept by
    [update_event]; a table that only assignments do not touch is kept when
    no tags are given. *)
Lemma update_event_view {X} (proj : DB -> X) (x : X)
    (event_id : Z) (title description : string) (tags : option (list Z))
    (start_date end_date : option date) (start_time end_time : option time)
    (description_html : option string) (club_id : option Z)
    (location cta_link : option string) :
  (forall id a w, proj (assign_in id a w) = proj w) ->
  ((forall w l, proj (mkDB (users w) (memberships w) (events w) l) = proj w)
   \/ tags = None \/ tags = Some []) ->
  maintains (view_is proj x)
    (update_event event_id title description tags start_date end_date
                  start_time end_time description_html club_id location cta_link).
Proof.
  intros Hassign Htags. rewrite update_event_unfold.
  apply maintains_bind; [intros s Hs; exact Hs|intros [event|]];
    [|apply maintains_ret].
  apply maintains_bind; [now apply view_update_block|].
  intros error. apply maintains_bind; [|intros _; apply maintains_ret].
  destruct Htags as [Htags|[->| ->]]; try apply maintains_ret.
  destruct tags as [[|t rest]|]; try apply maintains_ret.
  now apply view_add_event_tags.
Qed.

(** X10: what [update_event] leaves alone.  On a session with nothing
    pending, whatever the arguments and whether the call returns or raises,
    the users and memberships tables are unchanged; when [event_tags] is
    omitted or is the empty list, every tag row is unchanged as well (an empty
    list does not clear the tags); and when no event has the given id the call
    returns False and changes nothing, tags included, even if tags were
    supplied. *)
Theorem update_event_frame :
  forall (s : Session) (event_id : Z) (title description : string)
         (tags : option (list Z))
         (start_date end_date : option date) (start_time end_time : option time)
         (description_html : option string) (club_id : option Z)
         (location cta_link : option string),
    clean s ->
    let r := update_event event_id title description tags start_date end_date
               start_time end_time description_html club_id location cta_link s in
    users (store (final_session r)) = users (store s)
    /\ users (working (final_session r)) = users (store s)
    /\ memberships (store (final_session r)) = memberships (store s)
    /\ memberships (working (final_session r)) = memberships (store s)
    /\ (tags = None \/ tags = Some [] ->
        event_tags (store (final_session r)) = event_tags (store s)
        /\ event_tags (working (final_session r)) = event_tags (store s))
    /\ (event_by_id event_id (working s) = None ->
        r = Ok false (final_session r)
        /\ store (final_session r) = store s
        /\ working (final_session r) = working s).
Proof.
  intros s event_id title description tags start_date end_date start_time
         end_time description_html club_id location cta_link Hclean r.
  assert (Hu : view_is users (users (store s)) (final_session r)).
  { apply update_event_view; [reflexivity|left; reflexivity|].
    split; [now rewrite Hclean|reflexivity]. }
  assert (Hm : view_is memberships (memberships (store s)) (final_session r)).
  { apply update_event_view; [reflexivity|left; reflexivity|].
    split; [now rewrite Hclean|reflexivity]. }
  destruct Hu as [Hu1 Hu2]. destruct Hm as [Hm1 Hm2].
  repeat (split; [assumption|]). split.
  - intros Htags.
    assert (Ht : view_is event_tags (event_tags (store s)) (final_session r)).
    { apply update_event_view; [reflexivity|right; exact Htags|].
      split; [now rewrite Hclean|reflexivity]. }
    destruct Ht. auto.
  - intros He. subst r. rewrite update_event_unfold.
    unfold bind, query_event_by_id. rewrite He. cbn. auto.
Qed.

(** X10, an instance: an update of event 10 of [sample_db] with an empty tag
    list leaves its tags 1 and 2 in place. *)
Lemma update_event_frame_witness :
  clean sample_session
  /\ tags_of 10
       (store (final_session
                 (update_event 10 "Gala" "Dinner" (Some []) None None None None
                    None None None None sample_session)))
     = [1; 2].
Proof.
  split; [reflexivity|].
  destruct (update_event_frame sample_session 10 "Gala" "Dinner" (Some [])
              None None None None None None None None eq_refl)
    as (_ & _ & _ & _ & Htags & _).
  destruct (Htags (or_intror eq_refl)) as [Hst _].
  unfold tags_of. rewrite Hst. reflexivity.
Defined.

Lemma update_first_twice {A} (p : A -> bool) (f g : A -> A) (l : list A) :
  (forall x, p x = true -> p (f x) = true) ->
  update_first p g (update_first p f l) = update_first p (fun x => g (f x)) l.
Proof.
  intros Hp. induction l as [|x l IH]; cbn; [reflexivity|].
  destruct (p x) eqn:E; cbn.
  - now rewrite (Hp x E).
  - now rewrite E, IH.
Qed.

Lemma find_update_first_other {A} (p q : A -> bool) (f : A -> A) (l : list A) :
  (forall x, p x = true -> q x = false /\ q (f x) = false) ->
  find q (update_first p f l) = find q l.
Proof.
  intros H. induction l as [|x l IH]; cbn; [reflexivity|].
  destruct (p x) eqn:E; cbn.
  - destruct (H x E) as [H1 H2]. now rewrite H1, H2.
  - destruct (q x); [reflexivity|exact IH].
Qed.

(** X11: a call of [update_event_description] on an existing event that the
    store does not disturb returns True and changes the two description
    fields of that event and nothing else: its other ten fields, every other
    Event row, and the users, memberships and tags tables are as before, and
    the change is committed. *)
Theorem update_event_description_touches_only_descriptions :
  forall (s : Session) (event_id : Z) (description : string)
         (description_html : option string) (e0 : Event),
    no_faults s ->
    event_by_id event_id (working s) = Some e0 ->
    exists s',
      update_event_description event_id description description_html s = Ok true s'
      /\ event_by_id event_id (store s')
         = Some (mkEvent (Event_id e0) (Event_title e0) (Event_user_id e0)
                         description (Event_club_id e0) description_html
                         (Event_location e0) (Event_start_date e0)
                         (Event_end_date e0) (Event_start_time e0)
                         (Event_end_time e0) (Event_cta_link e0))
      /\ (forall other, other <> event_id ->
            event_by_id other (store s') = event_by_id other (working s))
      /\ List.length (events (store s')) = List.length (events (working s))
      /\ users (store s') = users (working s)
      /\ memberships (store s') = memberships (working s)
      /\ event_tags (store s') = event_tags (working s)
      /\ working s' = store s'.
Proof.
  intros s event_id description description_html e0 [Hc Hsa] He.
  assert (Hid : Event_id e0 = event_id).
  { apply find_some in He. destruct He as [_ He]. now apply Z.eqb_eq in He. }
  destruct (no_fault_head _ Hsa) as [Hsa0 Hsa1].
  destruct (no_fault_head _ Hsa1) as [Hsa2 _].
  destruct (no_fault_head _ Hc) as [Hc0 _].
  unfold update_event_description, bind, query_event_by_id, try_except_else.
  rewrite He.
  rewrite setattr_no_fault by exact Hsa0.
  rewrite setattr_no_fault by exact Hsa2.
  rewrite session_commit_no_fault by exact Hc0.
  cbn [log with_working working store commit_script setattr_script identity trace
       negb ret].
  eexists. split; [reflexivity|]. cbn [store working].
  rewrite Hid. split.
  { rewrite !event_by_id_assign_in, He. cbn [option_map].
    destruct e0. cbn in *. now subst. }
  unfold assign_in. cbn [users memberships events event_tags].
  rewrite update_first_twice by (intros x Hx; now rewrite apply_assignment_id).
  split.
  { intros other Hne. unfold event_by_id. cbn [events].
    apply find_update_first_other. intros x Hx. apply Z.eqb_eq in Hx.
    rewrite !apply_assignment_id. split; apply Z.eqb_neq; lia. }
  split; [|auto].
  generalize (events (working s)). intros l.
  induction l as [|x l IH]; cbn; [reflexivity|].
  destruct (Event_id x =? event_id); cbn; congruence.
Qed.

(** X11, an instance: the description of event 10 of [sample_db]. *)
Lemma update_event_description_touches_only_descriptions_witness :
  no_faults sample_session
  /\ event_by_id 10 (working sample_session) = Some party
  /\ option_map Event_title
       (event_by_id 10
          (store (final_session
                    (update_event_description 10 "Cake" None sample_session))))
     = Some "Party".
Proof.
  assert (Hnf : no_faults sample_session) by (split; constructor).
  split; [exact Hnf|]. split; [reflexivity|].
  destruct (update_event_description_touches_only_descriptions sample_session
              10 "Cake" None party Hnf eq_refl) as (s' & Hrun & Hev & _).
  rewrite Hrun. cbn [final_session]. rewrite Hev. reflexivity.
Defined.

(* ================================================================== *)
(** ** Rejected arguments of [get_events_by_month] *)

(** X12: [get_events_by_month] fails its assertion, before any query, when
    the month is outside 1..12.  For a month of 1..12 and a non-zero year
    outside 1..9999 the date constructor raises: ValueError when the year
    fits a C int, OverflowError when it does not.  A year of 0 is not rejected
    but taken as "no year", so the current year is used. *)
Theorem get_events_by_month_rejects :
  forall (s : Session) (now_year month : Z) (year : option Z),
    (month < 1 \/ 12 < month ->
     get_events_by_month now_year month year s = Raise AssertionError s)
    /\ (1 <= month <= 12 ->
        forall y, year = Some y -> y <> 0 -> y < MINYEAR \/ MAXYEAR < y ->
        (INT_MIN <= y <= INT_MAX ->
         get_events_by_month now_year month year s = Raise ValueError s)
        /\ (y < INT_MIN \/ INT_MAX < y ->
            get_events_by_month now_year month year s
            = Raise (OtherError "OverflowError") s))
    /\ get_events_by_month now_year month (Some 0) s
       = get_events_by_month now_year month None s.
Proof.
  intros s now_year month year. split; [|split].
  - intros Hm. unfold get_events_by_month.
    replace ((1 <=? month) && (month <=? 12)) with false; [reflexivity|].
    symmetry. apply andb_false_iff. rewrite !Z.leb_gt. lia.
  - intros Hm y -> Hy Hrange.
    assert (Hrun : get_events_by_month now_year month (Some y) s
                   = (from_date <- make_date y month 1 ;;
                      to_date <- make_date y month (monthrange_ndays y month) ;;
                      query_events_between from_date to_date) s).
    { unfold get_events_by_month.
      replace (1 <=? month) with true by (symmetry; apply Z.leb_le; lia).
      replace (month <=? 12) with true by (symmetry; apply Z.leb_le; lia).
      cbn [andb negb truthy_int].
      replace (y =? 0) with false by (symmetry; apply Z.eqb_neq; exact Hy).
      reflexivity. }
    rewrite Hrun. unfold bind, make_date.
    assert (Hsmall : forall n, 1 <= n <= 12 -> fits_c_int n = true).
    { intros n Hn. unfold fits_c_int, INT_MIN, INT_MAX.
      apply andb_true_iff. rewrite !Z.leb_le. lia. }
    rewrite (Hsmall month Hm), (Hsmall 1) by lia.
    split.
    + intros Hfit.
      replace (fits_c_int y) with true
        by (symmetry; unfold fits_c_int; apply andb_true_iff;
            rewrite !Z.leb_le; lia).
      cbn [andb negb].
      replace ((MINYEAR <=? y) && (y <=? MAXYEAR)) with false; [reflexivity|].
      symmetry. apply andb_false_iff. rewrite !Z.leb_gt. lia.
    + intros Hout.
      replace (fits_c_int y) with false; [reflexivity|].
      symmetry. unfold fits_c_int. apply andb_false_iff. rewrite !Z.leb_gt. lia.
  - reflexivity.
Qed.

(* ================================================================== *)
(** ** Memberships and permissions together *)

Lemma memberships_after_noop (club_id user_id p : Z) (l : list ClubMembership)
    (curr : ClubMembership) :
  find (is_membership_of club_id user_id) l = Some curr ->
  p <= ClubMembership_member_privilege curr ->
  memberships_after club_id user_id p l = l.
Proof.
  intros Hfind Hle. unfold memberships_after. rewrite Hfind.
  destruct (Z.gtb_spec p (ClubMembership_member_privilege curr)); [lia|reflexivity].
Qed.

Lemma memberships_after_found (club_id user_id p : Z) (l : list ClubMembership) :
  exists row,
    find (is_membership_of club_id user_id) (memberships_after club_id user_id p l)
    = Some row
    /\ p <= ClubMembership_member_privilege row
    /\ (forall cur,
          option_map ClubMembership_member_privilege
                     (find (is_membership_of club_id user_id) l) = Some cur ->
          ClubMembership_member_privilege row = Z.max cur p)
    /\ (find (is_membership_of club_id user_id) l = None ->
        ClubMembership_member_privilege row = p).
Proof.
  destruct (find (is_membership_of club_id user_id) l) as [curr|] eqn:Hfind.
  - destruct (memberships_after_existing club_id user_id p l curr Hfind) as (Hp & _).
    destruct (find (is_membership_of club_id user_id)
                (memberships_after club_id user_id p l)) as [row|]; [|discriminate].
    cbn in Hp. injection Hp as Hp. exists row. split; [reflexivity|].
    split; [lia|]. split; [|discriminate].
    intros cur Hcur. cbn in Hcur. injection Hcur as <-. exact Hp.
  - destruct (memberships_after_absent club_id user_id p l Hfind) as (Hp & _).
    destruct (find (is_membership_of club_id user_id)
                (memberships_after club_id user_id p l)) as [row|]; [|discriminate].
    cbn in Hp. injection Hp as Hp. exists row. split; [reflexivity|].
    split; [lia|]. split; [discriminate|]. intros _. exact Hp.
Qed.

(** X13: once [add_club_member] has run for a pair, a further call that asks
    for the same or a lower privilege changes nothing: the open transaction
    and, on a session with nothing pending, the committed store are left as
    the first call left them.  In particular the operation is idempotent. *)
Theorem add_club_member_repeat_is_noop :
  forall (s : Session) (club_id user_id p1 p2 : Z),
    no_faults s ->
    p2 <= p1 ->
    exists s1 s2,
      add_club_member club_id user_id p1 s = Ok tt s1
      /\ add_club_member club_id user_id p2 s1 = Ok tt s2
      /\ working s2 = working s1
      /\ (clean s -> store s2 = store s1).
Proof.
  intros s club_id user_id p1 p2 Hnf Hle.
  destruct (add_club_member_run club_id user_id p1 s Hnf)
    as (s1 & Hrun1 & Hnf1 & Hclean1 & Hm1 & _).
  destruct (add_club_member_run club_id user_id p2 s1 Hnf1)
    as (s2 & Hrun2 & _ & Hclean2 & Hm2 & Hu2 & He2 & Ht2).
  exists s1, s2. split; [exact Hrun1|]. split; [exact Hrun2|].
  assert (Hw : working s2 = working s1).
  { destruct (memberships_after_found club_id user_id p1 (memberships (working s)))
      as (row & Hrow & Hge & _).
    rewrite <- Hm1 in Hrow.
    rewrite (memberships_after_noop club_id user_id p2 _ row Hrow) in Hm2 by lia.
    destruct (working s2), (working s1). cbn in *. congruence. }
  split; [exact Hw|].
  intros Hclean. specialize (Hclean1 Hclean). specialize (Hclean2 Hclean1).
  unfold clean in *. congruence.
Qed.

(** X13, an instance: OFFICER then MEMBER for user 1 and club 7. *)
Lemma add_club_member_repeat_is_noop_witness :
  no_faults sample_session
  /\ MemberPrivilege.MEMBER <= MemberPrivilege.OFFICER
  /\ exists s1 s2,
       add_club_member 7 1 MemberPrivilege.OFFICER sample_session = Ok tt s1
       /\ add_club_member 7 1 MemberPrivilege.MEMBER s1 = Ok tt s2
       /\ working s2 = working s1
       /\ (clean sample_session -> store s2 = store s1).
Proof.
  assert (Hnf : no_faults sample_session) by (split; constructor).
  split; [exact Hnf|]. split; [unfold MemberPrivilege.MEMBER, MemberPrivilege.OFFICER; lia|].
  apply (add_club_member_repeat_is_noop sample_session 7 1
           MemberPrivilege.OFFICER MemberPrivilege.MEMBER Hnf).
  unfold MemberPrivilege.MEMBER, MemberPrivilege.OFFICER. lia.
Defined.

(** X14: making a user an officer of a club gives them the right to edit the
    club's events.  For an existing user and an existing event whose club_id
    is a non-zero club, after [add_club_member(club, user, OFFICER)] on a
    session whose writes the store accepts, [has_edit_permission] for that
    user and event returns True, provided the pair had no row or a row with a
    privilege of at most OFFICER. *)
Theorem officer_may_edit_club_events :
  forall (s : Session) (user_id event_id club_id : Z) (u : User) (e : Event),
    no_faults s ->
    user_by_id user_id (working s) = Some u ->
    event_by_id event_id (working s) = Some e ->
    Event_club_id e = Some club_id ->
    club_id <> 0 ->
    (forall cur, membership_privilege club_id user_id (working s) = Some cur ->
                 cur <= MemberPrivilege.OFFICER) ->
    exists s1 s2,
      add_club_member club_id user_id MemberPrivilege.OFFICER s = Ok tt s1
      /\ has_edit_permission user_id event_id s1 = Ok true s2.
Proof.
  intros s user_id event_id club_id u e Hnf Hu He Hclub Hnz Hcur.
  destruct (add_club_member_run club_id user_id MemberPrivilege.OFFICER s Hnf)
    as (s1 & Hrun1 & _ & _ & Hm1 & Hu1 & He1 & _).
  destruct (memberships_after_found club_id user_id MemberPrivilege.OFFICER
              (memberships (working s))) as (row & Hrow & _ & Hex & Hab).
  rewrite <- Hm1 in Hrow.
  assert (Hpriv : ClubMembership_member_privilege row = MemberPrivilege.OFFICER).
  { unfold membership_privilege in Hcur.
    destruct (find (is_membership_of club_id user_id) (memberships (working s)))
      as [curr|] eqn:Hfind.
    - rewrite (Hex _ eq_refl). specialize (Hcur _ eq_refl). lia.
    - now apply Hab. }
  apply find_some in Hrow. destruct Hrow as [Hin Hpair].
  apply is_membership_of_inv in Hpair. destruct Hpair as [Hrc Hru].
  destruct (has_edit_permission_returns s1 user_id event_id)
    as (b & s2 & Hrun2 & _ & _ & Hiff & _).
  exists s1, s2. split; [exact Hrun1|].
  assert (Hb : b = true).
  { apply Hiff. exists u. split.
    - unfold user_by_id in *. now rewrite Hu1.
    - right. right. exists e. split.
      + unfold event_by_id in *. now rewrite He1.
      + split; [exists club_id; auto|].
        exists row. rewrite Hrc. auto. }
  now rewrite <- Hb.
Qed.

(** X14, an instance: alice (user 1) does not own event 20 of club 7; made an
    officer of club 7 she may edit it. *)
Lemma officer_may_edit_club_events_witness :
  returned (has_edit_permission 1 20
              (open_session
                 (mkDB [alice; bob] []
                       [mkEvent 20 "Fair" 3 "Booths" (Some 7) None None None
                                None None None None] [])
                 [] []))
  = Some false
  /\ exists s1 s2,
       add_club_member 7 1 MemberPrivilege.OFFICER
         (open_session
            (mkDB [alice; bob] []
                  [mkEvent 20 "Fair" 3 "Booths" (Some 7) None None None
                           None None None None] [])
            [] []) = Ok tt s1
       /\ has_edit_permission 1 20 s1 = Ok true s2.
Proof.
  split; [reflexivity|].
  apply (officer_may_edit_club_events
           (open_session
              (mkDB [alice; bob] []
                    [mkEvent 20 "Fair" 3 "Booths" (Some 7) None None None
                             None None None None] [])
              [] [])
           1 20 7 alice
           (mkEvent 20 "Fair" 3 "Booths" (Some 7) None None None None None None None)).
  - split; constructor.
  - reflexivity.
  - reflexivity.
  - reflexivity.
  - lia.
  - intros cur H. discriminate.
Defined.

(** X15: when one of the two assignments of [update_event_description]
    raises, whatever the exception, it is caught: the transaction is rolled
    back, no commit is attempted, False is returned, and the committed store
    and the store's coming verdicts are untouched. *)
Theorem update_event_description_catches_setter_errors :
  forall (s : Session) (event_id : Z) (description : string)
         (description_html : option string) (e0 : Event)
         (k : nat) (e : Exn) (rest : list (option Exn)),
    event_by_id event_id (working s) = Some e0 ->
    setattr_script s = repeat None k ++ Some e :: rest ->
    (k < 2)%nat ->
    exists s',
      update_event_description event_id description description_html s
      = Ok false s'
      /\ working s' = store s /\ store s' = store s
      /\ commit_script s' = commit_script s
      /\ exists ops, trace s' = trace s ++ ops ++ [OpRollback]
                     /\ count_commits ops = 0%nat.
Proof.
  intros s event_id description description_html e0 k e rest He Hs Hk.
  apply (update_event_description_setter_fails event_id description
           description_html s e0 e He).
  exists rest. destruct k as [|[|k]]; [left|right|lia]; exact Hs.
Qed.

(** X15, an instance: the second assignment raises on event 10 of
    [sample_db]. *)
Lemma update_event_description_catches_setter_errors_witness :
  event_by_id 10 (working (open_session sample_db [] [None; Some ValueError]))
  = Some party
  /\ (1 < 2)%nat
  /\ exists s',
       update_event_description 10 "Cake" None
         (open_session sample_db [] [None; Some ValueError]) = Ok false s'
       /\ store s' = sample_db /\ working s' = sample_db.
Proof.
  split; [reflexivity|]. split; [lia|].
  destruct (update_event_description_catches_setter_errors
              (open_session sample_db [] [None; Some ValueError])
              10 "Cake" None party 1%nat ValueError [] eq_refl eq_refl)
    as (s' & Hrun & Hw & Hst & _); [lia|].
  exists s'. auto.
Defined.
